(** * abm_mp_example: a synchronous agent-based model run on a process pool

    Shallow embedding of [abm.py] (classes [Agent] and [Environment]) and of
    [simulation.py] (functions [update], [initializer], [doit]), followed by
    the properties of the round-based scheduler.

    Conventions of the embedding.
    - A Python exception is a value of [exn]; a call that may raise returns a
      [result]; a statement sequence whose state survives the exception returns
      an [outcome], which carries the state reached when the exception left.
    - Python [int] is [Z]; Python [float] is IEEE binary64, the kernel's
      primitive [float]; [None] is [PyNone].
    - [env.population] is a Python list of distinct [Agent] objects (each one is
      appended exactly once, by its own constructor), so mutating the object
      returned by [lookup] is an [alter] of the list at the resolved position.
    - The ambient generator of the [random] module, the wall clock read by
      [time.time()] and the order in which the pool's workers deliver their
      chunks are inputs: a tape of draws, and an [oracle] indexed by round. *)

From Stdlib Require Import ZArith Floats.
From stdpp Require Import base tactics option numbers list.

Local Open Scope Z_scope.

(** ** Exceptions and fallible computations *)

Inductive exn : Type :=
  | IndexError
  | TypeError
  | ValueError
  | ZeroDivisionError
  | OverflowError
  | AttributeError.

Inductive result (A : Type) : Type :=
  | Ok (a : A)
  | Raise (e : exn).
Arguments Ok {A} a.
Arguments Raise {A} e.

Global Instance result_ret : MRet result := fun _ a => Ok a.
Global Instance result_bind : MBind result := fun _ _ f m =>
  match m with
  | Ok a => f a
  | Raise e => Raise e
  end.
Global Instance result_fmap : FMap result := fun _ _ f m =>
  match m with
  | Ok a => Ok (f a)
  | Raise e => Raise e
  end.

Definition is_Ok {A} (m : result A) : Prop := exists a, m = Ok a.

(** State reached by a statement sequence: normally, or at the point where an
    exception propagated out of it. *)
Inductive outcome (S : Type) : Type :=
  | Done (s : S)
  | Raised (e : exn) (s : S).
Arguments Done {S} s.
Arguments Raised {S} e s.

Definition final {S} (o : outcome S) : S :=
  match o with
  | Done s => s
  | Raised _ s => s
  end.

Definition completed {S} (o : outcome S) : bool :=
  match o with
  | Done _ => true
  | Raised _ _ => false
  end.

(** ** Python values and the arithmetic the update formula uses *)

Inductive pyval : Type :=
  | PyNone
  | PyInt (z : Z)
  | PyFloat (f : float).

(** Integers of magnitude at least [float_limit] round (to nearest, ties to
    even) beyond the largest finite binary64 number. *)
Definition float_limit : Z := 2 ^ 1024 - 2 ^ 970.

Definition Z2SF (z : Z) : spec_float :=
  match z with
  | Z0 => S754_zero false
  | Zpos p => S754_finite false p 0
  | Zneg p => S754_finite true p 0
  end.

(** [float(z)]: correctly rounded, "int too large to convert to float"
    otherwise. *)
Definition float_of_int (z : Z) : result float :=
  if Z.abs z <? float_limit
  then Ok (SF2Prim (binary_normalize prec emax z 0 false))
  else Raise OverflowError.

(** [a / b] on two ints: the correctly rounded quotient. *)
Definition int_truediv (a b : Z) : result float :=
  if b =? 0 then Raise ZeroDivisionError
  else if Z.abs a <? float_limit * Z.abs b
  then Ok (SF2Prim (SFdiv prec emax (Z2SF a) (Z2SF b)))
  else Raise OverflowError.

Definition float_truediv (f g : float) : result float :=
  if PrimFloat.eqb g 0%float then Raise ZeroDivisionError
  else Ok (PrimFloat.div f g).

(** [x + y] *)
Definition py_add (x y : pyval) : result pyval :=
  match x, y with
  | PyInt a, PyInt b => Ok (PyInt (a + b))
  | PyInt a, PyFloat g => f ← float_of_int a; Ok (PyFloat (PrimFloat.add f g))
  | PyFloat f, PyInt b => g ← float_of_int b; Ok (PyFloat (PrimFloat.add f g))
  | PyFloat f, PyFloat g => Ok (PyFloat (PrimFloat.add f g))
  | _, _ => Raise TypeError
  end.

(** [x / y] (true division: the quotient is always a float) *)
Definition py_truediv (x y : pyval) : result pyval :=
  match x, y with
  | PyInt a, PyInt b => PyFloat <$> int_truediv a b
  | PyInt a, PyFloat g => f ← float_of_int a; PyFloat <$> float_truediv f g
  | PyFloat f, PyInt b => g ← float_of_int b; PyFloat <$> float_truediv f g
  | PyFloat f, PyFloat g => PyFloat <$> float_truediv f g
  | _, _ => Raise TypeError
  end.

(** [x > 0] *)
Definition py_gt_zero (x : pyval) : result bool :=
  match x with
  | PyInt a => Ok (0 <? a)
  | PyFloat f => Ok (PrimFloat.ltb 0%float f)
  | PyNone => Raise TypeError
  end.

(** [x == y] on numbers: an int and a float are equal when the float is
    finite and its exact value is that integer. *)
Definition float_is_int (g : float) (a : Z) : bool :=
  match Prim2SF g with
  | S754_zero _ => a =? 0
  | S754_finite s m e =>
      let m' := if s then Zneg m else Zpos m in
      if 0 <=? e then a =? m' * 2 ^ e else a * 2 ^ (- e) =? m'
  | _ => false
  end.

Definition py_eq (x y : pyval) : bool :=
  match x, y with
  | PyNone, PyNone => true
  | PyInt a, PyInt b => a =? b
  | PyFloat f, PyFloat g => PrimFloat.eqb f g
  | PyInt a, PyFloat g | PyFloat g, PyInt a => float_is_int g a
  | _, _ => false
  end.

(** Python list indexing [l[i]]: a negative index counts from the end. *)
Definition py_index (len : nat) (i : Z) : result nat :=
  let n := Z.of_nat len in
  if (0 <=? i) && (i <? n) then Ok (Z.to_nat i)
  else if (- n <=? i) && (i <? 0) then Ok (Z.to_nat (n + i))
  else Raise IndexError.

(** ** abm.py: Agent and Environment *)

Record Agent : Type := mkAgent {
  neighbors : list Z;
  cur_data : pyval;
  next_data : pyval;
  process_time : pyval;
  id : option Z   (* [None]: the attribute is not bound yet *)
}.

Record Environment : Type := mkEnvironment {
  population : list Agent;
  my_special_stuff : pyval
}.

Definition set_neighbors (l : list Z) (a : Agent) : Agent :=
  mkAgent l (cur_data a) (next_data a) (process_time a) (id a).
Definition set_cur_data (v : pyval) (a : Agent) : Agent :=
  mkAgent (neighbors a) v (next_data a) (process_time a) (id a).
Definition set_next_data (v : pyval) (a : Agent) : Agent :=
  mkAgent (neighbors a) (cur_data a) v (process_time a) (id a).
Definition set_process_time (v : pyval) (a : Agent) : Agent :=
  mkAgent (neighbors a) (cur_data a) (next_data a) v (id a).
Definition set_id (i : Z) (a : Agent) : Agent :=
  mkAgent (neighbors a) (cur_data a) (next_data a) (process_time a) (Some i).

Definition set_population (l : list Agent) (env : Environment) : Environment :=
  mkEnvironment l (my_special_stuff env).

(** Mutation of the agent object stored at position [pos]. *)
Definition alter_agent (f : Agent -> Agent) (pos : nat) (env : Environment)
  : Environment :=
  set_population (alter f pos (population env)) env.

(** [Environment.__init__] *)
Definition Environment_init : Environment :=
  mkEnvironment [] (PyInt 3).

(** [Environment.lookup]: [self.population[id]] *)
Definition lookup_pos (env : Environment) (i : Z) : result nat :=
  py_index (length (population env)) i.

Definition lookup (env : Environment) (i : Z) : result Agent :=
  pos ← lookup_pos env i;
  match population env !! pos with
  | Some a => Ok a
  | None => Raise IndexError
  end.

(** [Environment.register]: append, then return [len(self.population) - 1]. *)
Definition register (env : Environment) (agent : Agent) : Environment * Z :=
  let env' := set_population (population env ++ [agent]) env in
  (env', Z.of_nat (length (population env')) - 1).

(** [Agent.__init__]: the fresh object registers itself, then binds the id
    it was given; the object is the one [register] has just appended. *)
Definition fresh_agent : Agent :=
  mkAgent [] PyNone PyNone (PyInt 0) None.

Definition Agent_init (env : Environment) : Environment :=
  let '(env', i) := register env fresh_agent in
  alter_agent (set_id i) (length (population env)) env'.

Definition get_id (a : Agent) : result Z :=
  match id a with
  | Some i => Ok i
  | None => Raise AttributeError
  end.

(** [sum(map(f, self.neighbors))] with [f = lambda x: env.lookup(x).cur_data]:
    the items are produced and added one at a time, left to right, from the
    int [0]. *)
Fixpoint sum_neighbors (env : Environment) (acc : pyval) (ns : list Z)
  : result pyval :=
  match ns with
  | [] => Ok acc
  | x :: ns' =>
      a ← lookup env x;
      acc' ← py_add acc (cur_data a);
      sum_neighbors env acc' ns'
  end.

(** The largest whole number of seconds whose count of nanoseconds fits a
    signed 64-bit integer. *)
Definition sleep_max_seconds : Z := (2 ^ 63 - 1) / 10 ^ 9.

(** [time.sleep(secs)]: the interpreter converts the argument to a signed
    64-bit count of nanoseconds before anything is waited for.  A float that
    is NaN is refused (ValueError); the product of a float with [1e9], or of
    an int with [10^9], that leaves the 64-bit range is refused
    (OverflowError); a negative duration is then refused (ValueError).  An
    accepted duration only delays and leaves no trace in the state. *)

Definition time_sleep (secs : pyval) : result unit :=
  match secs with
  | PyNone => Raise TypeError
  | PyInt z =>
      if (z <? - sleep_max_seconds) || (sleep_max_seconds <? z)
      then Raise OverflowError
      else if z <? 0 then Raise ValueError
      else Ok tt
  | PyFloat f =>
      if negb (PrimFloat.eqb f f) then Raise ValueError
      else
        let d := PrimFloat.mul f 1e9%float in
        if PrimFloat.leb (-9223372036854775808)%float d
           && PrimFloat.ltb d 9223372036854775808%float
        then if PrimFloat.ltb f 0%float then Raise ValueError else Ok tt
        else Raise OverflowError
  end.

(** [if self.process_time > 0: time.sleep(self.process_time)] *)
Definition delay (process_time : pyval) : result unit :=
  positive ← py_gt_zero process_time;
  if positive : bool then time_sleep process_time else Ok tt.

(** [Agent.calculate_update]: returns the mutated [self] and the value. *)
Definition calculate_update (self : Agent) (env : Environment)
  : result (Agent * pyval) :=
  _ ← delay (process_time self);
  s ← sum_neighbors env (PyInt 0) (neighbors self);
  t ← py_add s (cur_data self);
  v ← py_truediv t (my_special_stuff env);
  Ok (set_next_data v self, v).

(** [Agent.do_update]: [data] is [None] when the argument is omitted (its
    default value is the Python [None]). *)
Definition do_update (self : Agent) (data : option pyval) : Agent :=
  match default PyNone data with
  | PyNone => set_cur_data (next_data self) self
  | d => set_cur_data d self
  end.

(** ** The [random] module: draws come from a tape *)

Definition randbelow (n : nat) (rng : list nat) : nat * list nat :=
  match rng with
  | [] => (0%nat, [])
  | x :: rng' => (Nat.modulo x n, rng')
  end.

(** [random.randint(a, b)] *)
Definition randint (a b : Z) (rng : list nat) : result (Z * list nat) :=
  if b <? a then Raise ValueError
  else
    let '(j, rng') := randbelow (Z.to_nat (b - a + 1)) rng in
    Ok (a + Z.of_nat j, rng').

(** [k] draws without replacement from [pool]. *)
Fixpoint draw {A} (k : nat) (pool : list A) (rng : list nat)
  : list A * list nat :=
  match k with
  | O => ([], rng)
  | S k' =>
      let '(j, rng1) := randbelow (length pool) rng in
      match pool !! j with
      | Some x =>
          let '(xs, rng2) := draw k' (delete j pool) rng1 in (x :: xs, rng2)
      | None => ([], rng1)
      end
  end.

(** [random.sample(l, k)] *)
Definition sample {A} (l : list A) (k : Z) (rng : list nat)
  : result (list A * list nat) :=
  if (0 <=? k) && (k <=? Z.of_nat (length l))
  then Ok (draw (Z.to_nat k) l rng)
  else Raise ValueError.

(** [l.remove(x)]: drops the first occurrence. *)
Fixpoint py_list_remove (x : Z) (l : list Z) : result (list Z) :=
  match l with
  | [] => Raise ValueError
  | y :: l' =>
      if decide (y = x) then Ok l' else cons y <$> py_list_remove x l'
  end.

(** [list(range(n))] *)
Definition py_range (n : nat) : list Z := Z.of_nat <$> seq 0 n.

(** ** simulation.py *)

Record Params : Type := mkParams {
  p_neighbors : Z;
  p_max : Z;
  p_iterations : Z;
  p_agents : Z;
  p_processes : Z;
  p_process_time : pyval
}.

Definition params : Params :=
  mkParams 3 50 30 20 15 (PyFloat 0.25%float).

(** [Agent.setup]: on an exception the attributes already assigned stay
    assigned. *)
Definition setup (self : Agent) (params : Params) (env : Environment)
    (rng : list nat) : outcome (Agent * list nat) :=
  match randint (- p_max params) (p_max params) rng with
  | Raise e => Raised e (self, rng)
  | Ok (v, rng1) =>
      let self1 := set_cur_data (PyInt v) self in
      let self2 := set_process_time (p_process_time params) self1 in
      let l := py_range (length (population env)) in
      match (i ← get_id self2; py_list_remove i l) with
      | Raise e => Raised e (self2, rng1)
      | Ok l' =>
          match sample l' (p_neighbors params) rng1 with
          | Raise e => Raised e (self2, rng1)
          | Ok (ns, rng2) => Done (set_neighbors ns self2, rng2)
          end
      end
  end.

(** [for i in range(n): body], from index [i]; the loop ends at the first
    exception. *)
Fixpoint for_range {St} (body : nat -> St -> outcome St) (i n : nat) (st : St)
  : outcome St :=
  match n with
  | O => Done st
  | S n' =>
      match body i st with
      | Done st' => for_range body (S i) n' st'
      | Raised e st' => Raised e st'
      end
  end.

(** [initializer]: the worker's global is this worker's copy of the
    environment. *)
Definition initializer (arg : Environment) : Environment := arg.

(** [update]: runs in a worker on its own copy of the agent; the copy, with
    its [next_data], is dropped when the task ends. *)
Definition update (worker_env : Environment) (a : Agent) : result (Z * pyval) :=
  i ← get_id a;
  '(_, v) ← calculate_update a worker_env;
  Ok (i, v).

(** *** [multiprocessing.Pool.map] *)

Fixpoint map_result {A B} (f : A -> result B) (l : list A) : result (list B) :=
  match l with
  | [] => Ok []
  | x :: l' => y ← f x; ys ← map_result f l'; Ok (y :: ys)
  end.

Definition chunksize (len procs : nat) : nat :=
  if Nat.eqb len 0 then 0%nat
  else if Nat.eqb (Nat.modulo len (procs * 4)) 0 then Nat.div len (procs * 4)
  else S (Nat.div len (procs * 4)).

Fixpoint chunks {A} (fuel size : nat) (l : list A) : list (list A) :=
  match fuel, l with
  | S fuel', _ :: _ => take size l :: chunks fuel' size (drop size l)
  | _, _ => []
  end.

Fixpoint first_failure {B} (rs : list (result B)) : option exn :=
  match rs with
  | [] => None
  | Ok _ :: rs' => first_failure rs'
  | Raise e :: _ => Some e
  end.

Fixpoint gather {B} (rs : list (result (list B))) : list B :=
  match rs with
  | [] => []
  | Ok ys :: rs' => ys ++ gather rs'
  | Raise _ :: rs' => gather rs'
  end.

(** The iterable is cut into chunks; a worker maps the function over a chunk
    and stops at its first exception; chunks come back in the order [arrival]
    decides. The first failed chunk to come back gives the exception [map]
    raises; otherwise the values are returned in the order of the iterable. *)
Definition pool_map {A B} (procs : nat) (arrival : list nat)
    (func : A -> result B) (iterable : list A) : result (list B) :=
  let len := length iterable in
  let tasks := chunks len (chunksize len procs) iterable in
  let finished := map_result func <$> tasks in
  match first_failure (fst (draw (length finished) finished arrival)) with
  | Some e => Raise e
  | None => Ok (gather finished)
  end.

(** The commit loop of a round:
    [for id, data in result: env.lookup(id).do_update(data)] *)
Fixpoint commit (res : list (Z * pyval)) (env : Environment)
  : outcome Environment :=
  match res with
  | [] => Done env
  | (i, data) :: res' =>
      match lookup_pos env i with
      | Raise e => Raised e env
      | Ok pos =>
          match population env !! pos with
          | None => Raised IndexError env
          | Some _ =>
              commit res' (alter_agent (fun a => do_update a (Some data)) pos env)
          end
      end
  end.

(** One round: the pool is created ([Pool] refuses fewer than one process),
    the updates are mapped over the population, then committed. *)
Definition run_round (processes : Z) (arrival : list nat) (env : Environment)
  : outcome Environment :=
  if processes <? 1 then Raised ValueError env
  else
    match pool_map (Z.to_nat processes) arrival
                   (update (initializer env)) (population env) with
    | Raise e => Raised e env
    | Ok res => commit res env
    end.

(** What the world supplies to round [i]: the two readings of the clock and
    the order in which the chunks of the round come back. *)
Record oracle : Type := mkOracle {
  time_start : nat -> float;
  time_end : nat -> float;
  arrival : nat -> list nat
}.

(** The line printed at the end of a round. *)
Record report : Type := mkReport {
  r_iteration : Z;
  r_seconds : float;
  r_agents : list (Z * pyval)
}.

(** The ids and values the printed line shows, in population order. *)
Definition report_agents (env : Environment) : result (list (Z * pyval)) :=
  map_result (fun x => i ← get_id x; Ok (i, cur_data x)) (population env).

(** The body of the round loop of [doit]: read the clock, run the round, read
    the clock, print the report. *)
Definition iteration (params : Params) (w : oracle) (i : nat)
    (st : Environment * list report) : outcome (Environment * list report) :=
  let '(env, out) := st in
  let start := time_start w i in
  match run_round (p_processes params) (arrival w i) env with
  | Raised e env' => Raised e (env', out)
  | Done env' =>
      let stop := time_end w i in
      match report_agents env' with
      | Raise e => Raised e (env', out)
      | Ok line =>
          Done (env', out ++ [mkReport (Z.of_nat i) (PrimFloat.sub stop start) line])
      end
  end.

(** The round loop of [doit], from an environment that is set up; nothing is
    printed before it. *)
Definition run_iterations (params : Params) (w : oracle) (env : Environment)
  : outcome (Environment * list report) :=
  for_range (iteration params w) 0 (Z.to_nat (p_iterations params)) (env, []).

(** [for i in range(params["agents"]): Agent(env)] *)
Definition populate (n : Z) : Environment :=
  Nat.iter (Z.to_nat n) Agent_init Environment_init.

(** [for a in env.population: a.setup(params, env)] *)
Definition setup_one (params : Params) (pos : nat)
    (st : Environment * list nat) : outcome (Environment * list nat) :=
  let '(env, rng) := st in
  match population env !! pos with
  | None => Done st
  | Some a =>
      match setup a params env rng with
      | Done (a', rng') => Done (alter_agent (fun _ => a') pos env, rng')
      | Raised e (a', rng') => Raised e (alter_agent (fun _ => a') pos env, rng')
      end
  end.

Definition setup_all (params : Params) (env : Environment) (rng : list nat)
  : outcome (Environment * list nat) :=
  for_range (setup_one params) 0 (length (population env)) (env, rng).

(** [doit] *)
Definition doit (params : Params) (rng : list nat) (w : oracle)
  : outcome (Environment * list report) :=
  let env := populate (p_agents params) in
  match setup_all params env rng with
  | Raised e (env', _) => Raised e (env', [])
  | Done (env', _) => run_iterations params w env'
  end.

(** ** Specification-side definitions *)

(** The round snapshot of the specification: every agent's current value at
    the start of the round. *)
Definition snapshot (env : Environment) : list pyval :=
  cur_data <$> population env.

Fixpoint sum_snapshot (snap : list pyval) (acc : pyval) (ns : list Z)
  : result pyval :=
  match ns with
  | [] => Ok acc
  | x :: ns' =>
      pos ← py_index (length snap) x;
      match snap !! pos with
      | Some v => acc' ← py_add acc v; sum_snapshot snap acc' ns'
      | None => Raise IndexError
      end
  end.

(** The update function of the specification, a function of the snapshot, the
    shared constant and the agent's own fields only. *)
Definition next_value (snap : list pyval) (special : pyval) (a : Agent)
  : result pyval :=
  _ ← delay (process_time a);
  s ← sum_snapshot snap (PyInt 0) (neighbors a);
  t ← py_add s (cur_data a);
  py_truediv t special.

(** Ids are dense: the agent at position [i] has id [i]. *)
Definition ids_dense (env : Environment) : Prop :=
  id <$> population env
  = (fun i => Some (Z.of_nat i)) <$> seq 0 (length (population env)).

(** ** Predicates and functions the statements use *)

(** [register] applied to each agent of a list in turn, with the ids it
    returned. *)
Fixpoint register_all (env : Environment) (agents : list Agent)
  : Environment * list Z :=
  match agents with
  | [] => (env, [])
  | a :: agents' =>
      let '(env1, i) := register env a in
      let '(env2, ids) := register_all env1 agents' in
      (env2, i :: ids)
  end.

(** The neighbor list of an agent of a population of [size] agents set up with
    [count] neighbors. *)
Definition neighbors_ok (size : nat) (count : Z) (a : Agent) : Prop :=
  (forall i, id a = Some i -> i ∉ neighbors a) /\
  NoDup (neighbors a) /\
  Forall (fun x => 0 <= x < Z.of_nat size) (neighbors a) /\
  Z.of_nat (length (neighbors a)) = count.

(** The attributes a round never writes. *)
Definition fixed_part (a : Agent) : option Z * list Z * pyval * pyval :=
  (id a, neighbors a, process_time a, next_data a).

(** The state of an agent once [setup] has run on it. *)
Definition setup_post (params : Params) (size : nat) (a : Agent) : Prop :=
  neighbors_ok size (p_neighbors params) a /\
  process_time a = p_process_time params /\
  exists v, cur_data a = PyInt v /\ Z.abs v <= p_max params.

(** Invariant of the setup loop before position [j]: ids and the shared
    constant are those of [env], and the agents before [j] are set up. *)
Definition setup_inv (params : Params) (env : Environment) (j : nat)
    (st : Environment * list nat) : Prop :=
  id <$> population st.1 = id <$> population env /\
  my_special_stuff st.1 = my_special_stuff env /\
  forall i a, population st.1 !! i = Some a -> (i < j)%nat ->
              setup_post params (length (population env)) a.

(** The values of a round: the update function on the round-start snapshot,
    for every agent in population order. *)
Definition next_values (env : Environment) : result (list pyval) :=
  map_result (next_value (snapshot env) (my_special_stuff env))
             (population env).

(** The environment once the values [vs] are committed, one per agent. *)
Definition committed (vs : list pyval) (env : Environment) : Environment :=
  set_population (zip_with set_cur_data vs (population env)) env.

(** The population once the first [length vs] agents have their value. *)
Definition apply_values (vs : list pyval) (l : list Agent) : list Agent :=
  imap (fun i a => from_option (fun v => set_cur_data v a) a (vs !! i)) l.

(** The scenario of the specification: three agents in a ring, shared
    constant 1, current values 10, 20, 30. *)
Definition scenario_env : Environment :=
  mkEnvironment
    [ mkAgent [1] (PyInt 10) PyNone (PyInt 0) (Some 0);
      mkAgent [2] (PyInt 20) PyNone (PyInt 0) (Some 1);
      mkAgent [0] (PyInt 30) PyNone (PyInt 0) (Some 2) ]
    (PyInt 1).

(** The scenario with the value of agent 1 missing: agents 0 and 1 cannot
    compute their update. *)
Definition failing_env : Environment :=
  mkEnvironment
    [ mkAgent [1] (PyInt 10) PyNone (PyInt 0) (Some 0);
      mkAgent [2] PyNone PyNone (PyInt 0) (Some 1);
      mkAgent [0] (PyInt 30) PyNone (PyInt 0) (Some 2) ]
    (PyInt 1).

(** A number whose magnitude, if it is an int, is at most [bound]. *)
Definition value_ok (bound : Z) (v : pyval) : Prop :=
  match v with
  | PyNone => False
  | PyInt z => Z.abs z <= bound
  | PyFloat _ => True
  end.

(** A number that is not zero, also once converted to a float. *)
Definition divisor_ok (v : pyval) : Prop :=
  match v with
  | PyNone => False
  | PyInt z =>
      z <> 0 /\
      exists g, float_of_int z = Ok g /\ PrimFloat.eqb g 0%float = false
  | PyFloat g => PrimFloat.eqb g 0%float = false
  end.

(** A process time on which the delay of [calculate_update] does not raise:
    a number that is not positive, or a duration [time.sleep] accepts. *)
Definition delay_ok (pt : pyval) : Prop := delay pt = Ok tt.

(** An agent whose update cannot raise: neighbors are indexes of the
    population, the value is a number, the delay is accepted, and the sum of
    the neighbors' and own values converts to a float. *)
Definition agent_ready (bound : Z) (size : nat) (a : Agent) : Prop :=
  Forall (fun x => - Z.of_nat size <= x < Z.of_nat size) (neighbors a) /\
  value_ok bound (cur_data a) /\
  delay_ok (process_time a) /\
  (Z.of_nat (length (neighbors a)) + 1) * bound < float_limit.

(** An environment on which a round cannot raise. *)
Definition round_ready (bound : Z) (env : Environment) : Prop :=
  0 <= bound /\
  ids_dense env /\
  divisor_ok (my_special_stuff env) /\
  Forall (agent_ready bound (length (population env))) (population env).

(** One round of commits, as a function. *)
Definition round_step (env : Environment) : Environment :=
  match next_values env with
  | Ok vs => committed vs env
  | Raise _ => env
  end.

(** The line round [i] prints when no round raises. *)
Definition expected_report (w : oracle) (env : Environment) (i : nat)
  : report :=
  mkReport (Z.of_nat i)
    (PrimFloat.sub (time_end w i) (time_start w i))
    (imap (fun k a => (Z.of_nat k, cur_data a))
          (population (Nat.iter (S i) round_step env))).

(** Invariant of the round loop before iteration [j]. *)
Definition loop_inv (b : Z) (w : oracle) (env : Environment) (j : nat)
    (st : Environment * list report) : Prop :=
  round_ready b st.1 /\
  st.1 = Nat.iter j round_step env /\
  st.2 = expected_report w env <$> seq 0 j.

(** The parameters with another number of processes. *)
Definition set_processes (p : Z) (params : Params) : Params :=
  mkParams (p_neighbors params) (p_max params) (p_iterations params)
           (p_agents params) p (p_process_time params).

(** A report without its wall-clock duration. *)
Definition report_values (r : report) : Z * list (Z * pyval) :=
  (r_iteration r, r_agents r).

(** Same environment, and same reports apart from the durations. *)
Definition same_state (s1 s2 : Environment * list report) : Prop :=
  s1.1 = s2.1 /\ report_values <$> s1.2 = report_values <$> s2.2.

(** Two runs that end the same way in the same state. *)
Definition same_run (o1 o2 : outcome (Environment * list report)) : Prop :=
  completed o1 = completed o2 /\ same_state (final o1) (final o2).

(** The agent once [setup] has assigned its first two attributes. *)
Definition setup_assigned (v : Z) (params : Params) (self : Agent) : Agent :=
  set_process_time (p_process_time params) (set_cur_data (PyInt v) self).

(** A divisor on which [/] raises ZeroDivisionError. *)
Definition zero_divisor (v : pyval) : Prop :=
  match v with
  | PyNone => False
  | PyInt z => z = 0
  | PyFloat g => PrimFloat.eqb g 0%float = true
  end.

(** Agents that differ at most in [process_time], both with a delay that is
    accepted. *)
Definition same_but_delay (a1 a2 : Agent) : Prop :=
  neighbors a1 = neighbors a2 /\ cur_data a1 = cur_data a2 /\
  next_data a1 = next_data a2 /\ id a1 = id a2 /\
  delay_ok (process_time a1) /\ delay_ok (process_time a2).

(** Environments that differ at most in the agents' [process_time]. *)
Definition same_but_delays (env1 env2 : Environment) : Prop :=
  my_special_stuff env1 = my_special_stuff env2 /\
  Forall2 same_but_delay (population env1) (population env2).

(** The parameters with another process time. *)
Definition set_delay (pt : pyval) (params : Params) : Params :=
  mkParams (p_neighbors params) (p_max params) (p_iterations params)
           (p_agents params) (p_processes params) pt.

(** ** Basic facts *)

Ltac agent_simpl :=
  unfold alter_agent, set_population, set_neighbors, set_cur_data,
    set_next_data, set_process_time, set_id in *; simpl in *.

Lemma fmap_Ok {A B} (m : result A) (f : A -> B) (b : B) :
  f <$> m = Ok b <-> exists a, m = Ok a /\ b = f a.
Proof.
  destruct m as [a|e]; simpl; split.
  - intros [= <-]. by exists a.
  - by intros (a' & [= ->] & ->).
  - intros [=].
  - by intros (a' & [=] & _).
Qed.

Lemma py_index_Ok (len : nat) (i : Z) (pos : nat) :
  py_index len i = Ok pos ->
  (pos < len)%nat /\
  (0 <= i /\ pos = Z.to_nat i \/ i < 0 /\ pos = Z.to_nat (Z.of_nat len + i)).
Proof.
  unfold py_index.
  destruct (0 <=? i) eqn:H0, (i <? Z.of_nat len) eqn:H1; simpl;
    try (intros [= <-]; lia).
  all: destruct (- Z.of_nat len <=? i) eqn:H2, (i <? 0) eqn:H3; simpl;
    try (intros [= <-]; lia); intros [=].
Qed.

Lemma py_index_nonneg (len : nat) (i : Z) :
  0 <= i < Z.of_nat len -> py_index len i = Ok (Z.to_nat i).
Proof.
  intros H. unfold py_index.
  destruct (0 <=? i) eqn:H0, (i <? Z.of_nat len) eqn:H1; simpl; try done; lia.
Qed.

Lemma py_index_neg (len : nat) (i : Z) :
  - Z.of_nat len <= i < 0 -> py_index len i = Ok (Z.to_nat (Z.of_nat len + i)).
Proof.
  intros H. unfold py_index.
  destruct (0 <=? i) eqn:H0, (i <? Z.of_nat len) eqn:H1; simpl; try lia.
  all: destruct (- Z.of_nat len <=? i) eqn:H2, (i <? 0) eqn:H3; simpl;
    try done; lia.
Qed.

Lemma py_index_Raise (len : nat) (i : Z) (e : exn) :
  py_index len i = Raise e <->
  e = IndexError /\ (i < - Z.of_nat len \/ Z.of_nat len <= i).
Proof.
  unfold py_index.
  destruct (0 <=? i) eqn:H0, (i <? Z.of_nat len) eqn:H1; simpl.
  all: try destruct (- Z.of_nat len <=? i) eqn:H2;
       try destruct (i <? 0) eqn:H3; simpl; split;
       try (intros [=]); try (intros [_ ?]; lia); try (split; [done | lia]);
       try (intros [-> _]; done).
Qed.

Lemma lookup_Ok (env : Environment) (i : Z) (pos : nat) :
  py_index (length (population env)) i = Ok pos ->
  exists a, population env !! pos = Some a /\ lookup env i = Ok a.
Proof.
  intros H. unfold lookup, lookup_pos. rewrite H. simpl.
  destruct (py_index_Ok _ _ _ H) as [Hlt _].
  destruct (lookup_lt_is_Some_2 (population env) pos Hlt) as [a Ha].
  exists a. by rewrite Ha.
Qed.

(** ** Environment: lookup and registration *)

(** C4 (amended). [lookup] is Python list indexing: it raises (IndexError) if
    and only if the id is below minus the population size or at least the
    population size; an id in [0, size) gives the agent stored at that index,
    and a negative id in [-size, 0) gives the agent stored at index
    size + id. *)
Theorem lookup_python_indexing (env : Environment) (i : Z) :
  let n := Z.of_nat (length (population env)) in
  ((exists e, lookup env i = Raise e) <-> i < - n \/ n <= i) /\
  (i < - n \/ n <= i -> lookup env i = Raise IndexError) /\
  (0 <= i < n ->
   exists a, population env !! Z.to_nat i = Some a /\ lookup env i = Ok a) /\
  (- n <= i < 0 ->
   exists a, population env !! Z.to_nat (n + i) = Some a /\ lookup env i = Ok a).
Proof.
  intros n. subst n.
  assert (Hraise : i < - Z.of_nat (length (population env))
                   \/ Z.of_nat (length (population env)) <= i ->
                   lookup env i = Raise IndexError).
  { intros H. unfold lookup, lookup_pos.
    assert (py_index (length (population env)) i = Raise IndexError) as ->.
    { by apply py_index_Raise. }
    done. }
  split; [|split; [done|split]].
  - split; [|eauto].
    intros [e He].
    destruct (py_index (length (population env)) i) as [pos|e'] eqn:Hpos.
    + destruct (lookup_Ok env i pos Hpos) as (a & _ & Ha). congruence.
    + apply py_index_Raise in Hpos. tauto.
  - intros H. apply lookup_Ok. by apply py_index_nonneg.
  - intros H. apply lookup_Ok. by apply py_index_neg.
Qed.

Lemma lookup_python_indexing_witness :
  exists a, population (populate 2) !! Z.to_nat (2 + -1) = Some a
            /\ lookup (populate 2) (-1) = Ok a.
Proof.
  apply (lookup_python_indexing (populate 2) (-1)). simpl. lia.
Defined.

(** C4 as stated fails: in a population of one agent the negative id -1 does
    not fail, it resolves to the last agent. *)
Lemma lookup_negative_id_counterexample :
  ~ ((exists e, lookup (populate 1) (-1) = Raise e)
     <-> (-1 < 0 \/ Z.of_nat (length (population (populate 1))) <= -1)).
Proof.
  intros [_ H]. destruct H as [e He]; [lia|]. vm_compute in He. discriminate.
Qed.

Lemma register_eq (env : Environment) (agent : Agent) :
  register env agent
  = (set_population (population env ++ [agent]) env,
     Z.of_nat (length (population env))).
Proof.
  unfold register. f_equal. simpl. rewrite length_app. simpl. lia.
Qed.

Lemma register_all_eq (agents : list Agent) (env : Environment) :
  register_all env agents
  = (set_population (population env ++ agents) env,
     (fun i => Z.of_nat (length (population env) + i)) <$> seq 0 (length agents)).
Proof.
  revert env. induction agents as [|a agents IH]; intros env.
  - simpl. rewrite app_nil_r. by destruct env.
  - cbn [register_all]. rewrite register_eq, IH. simpl. f_equal.
    + unfold set_population. simpl. by rewrite <- app_assoc.
    + f_equal; [f_equal; lia|].
      rewrite <- fmap_S_seq, <- list_fmap_compose. apply list_fmap_ext.
      intros _ i _. simpl. rewrite length_app. simpl. f_equal. lia.
Qed.

Lemma Agent_init_eq (env : Environment) :
  Agent_init env
  = set_population
      (population env
       ++ [set_id (Z.of_nat (length (population env))) fresh_agent]) env.
Proof.
  unfold Agent_init. rewrite register_eq. unfold alter_agent, set_population.
  simpl. f_equal.
  rewrite (alter_app_r_alt (set_id _) (population env) [fresh_agent]) by lia.
  by rewrite Nat.sub_diag.
Qed.

Lemma populate_nat (n : nat) :
  Nat.iter n Agent_init Environment_init
  = mkEnvironment
      ((fun i => set_id (Z.of_nat i) fresh_agent) <$> seq 0 n) (PyInt 3).
Proof.
  induction n as [|n IH]; [done|].
  rewrite Nat.iter_succ, IH, Agent_init_eq. unfold set_population. simpl population.
  rewrite length_fmap, length_seq, seq_S, fmap_app. done.
Qed.

Lemma populate_eq (n : Z) :
  populate n
  = mkEnvironment
      ((fun i => set_id (Z.of_nat i) fresh_agent) <$> seq 0 (Z.to_nat n))
      (PyInt 3).
Proof. apply populate_nat. Qed.

Lemma populate_length (n : Z) : length (population (populate n)) = Z.to_nat n.
Proof. rewrite populate_eq. simpl. by rewrite length_fmap, length_seq. Qed.

Lemma populate_dense (n : Z) : ids_dense (populate n).
Proof.
  unfold ids_dense. rewrite populate_length, populate_eq. simpl.
  by rewrite <- list_fmap_compose.
Qed.

(** C7. [register] appends the agent, leaves the rest of the environment as it
    was, and returns the population size before the call; it is a total
    function. Registering a list of agents in an empty environment returns the
    ids 0..n-1 and [lookup] resolves each id to the agent that received it;
    the agents created by [Agent(env)] carry that id. *)
Theorem register_contract (env : Environment) (agent : Agent)
    (agents : list Agent) (n : Z) :
  register env agent
  = (mkEnvironment (population env ++ [agent]) (my_special_stuff env),
     Z.of_nat (length (population env))) /\
  (let '(env', ids) := register_all Environment_init agents in
   population env' = agents /\
   ids = py_range (length agents) /\
   lookup env' <$> ids = Ok <$> agents) /\
  length (population (populate n)) = Z.to_nat n /\
  (fun i => id <$> lookup (populate n) i) <$> py_range (Z.to_nat n)
  = (fun i => Ok (Some i)) <$> py_range (Z.to_nat n).
Proof.
  split; [apply register_eq|]. split; [|split; [apply populate_length|]].
  - rewrite register_all_eq. simpl. split; [done|]. split; [done|].
    apply list_eq. intros k. rewrite !list_lookup_fmap.
    destruct (agents !! k) as [a|] eqn:Hk; simpl.
    + rewrite lookup_seq_lt by (by eapply lookup_lt_Some). simpl. f_equal.
      unfold lookup, lookup_pos. simpl.
      rewrite py_index_nonneg by (apply lookup_lt_Some in Hk; lia). simpl.
      by rewrite Nat2Z.id, Hk.
    + by rewrite lookup_seq_ge by (by apply lookup_ge_None).
  - unfold py_range. rewrite <- !list_fmap_compose. apply list_fmap_ext.
    intros k i Hi. apply lookup_seq in Hi as [-> Hi]. simpl.
    unfold lookup, lookup_pos. rewrite populate_length.
    rewrite py_index_nonneg by lia. simpl. rewrite Nat2Z.id, populate_eq. simpl.
    rewrite list_lookup_fmap, lookup_seq_lt by done. done.
Qed.

(** C10. [do_update(d)] with [d] not [None] stores [d] in [cur_data];
    [do_update()] and [do_update(None)] both copy [next_data] into [cur_data];
    in every case [id], [neighbors], [next_data] and [process_time] keep
    their values. *)
Theorem do_update_commit_and_frame (self : Agent) (d : pyval)
    (data : option pyval) :
  d <> PyNone ->
  cur_data (do_update self (Some d)) = d /\
  cur_data (do_update self None) = next_data self /\
  cur_data (do_update self (Some PyNone)) = next_data self /\
  id (do_update self data) = id self /\
  neighbors (do_update self data) = neighbors self /\
  next_data (do_update self data) = next_data self /\
  process_time (do_update self data) = process_time self.
Proof.
  intros Hd. split; [by destruct d|]. split; [done|]. split; [done|].
  destruct data as [[]|]; done.
Qed.

Lemma do_update_commit_and_frame_witness :
  cur_data (do_update (mkAgent [1] (PyInt 10) (PyFloat 7) (PyInt 0) (Some 0))
                      (Some (PyFloat 30)))
  = PyFloat 30 /\
  cur_data (do_update (mkAgent [1] (PyInt 10) (PyFloat 7) (PyInt 0) (Some 0)) None)
  = PyFloat 7.
Proof.
  pose proof (do_update_commit_and_frame
                (mkAgent [1] (PyInt 10) (PyFloat 7) (PyInt 0) (Some 0))
                (PyFloat 30) None) as H.
  destruct H as (H1 & H2 & _); [discriminate|]. split; [exact H1|exact H2].
Defined.

(** ** Drawing without replacement *)

Lemma randbelow_lt (n : nat) (rng : list nat) :
  (0 < n)%nat -> ((randbelow n rng).1 < n)%nat.
Proof.
  intros Hn. destruct rng as [|x rng]; simpl; [done|].
  apply Nat.mod_upper_bound. lia.
Qed.

Lemma submseteq_NoDup {A} (l1 l2 : list A) : l1 ⊆+ l2 -> NoDup l2 -> NoDup l1.
Proof.
  induction 1 as [|x l1 l2 Hsub IH|x y l|x l1 l2 Hsub IH|l1 l2 l3 _ IH1 _ IH2];
    intros Hnd; auto.
  - apply NoDup_cons in Hnd as [Hx Hnd]. apply NoDup_cons. split; [|auto].
    intros Hin. apply Hx. by eapply elem_of_submseteq.
  - by rewrite (perm_swap x y l).
  - apply IH. by eapply NoDup_cons_1_2.
Qed.

Lemma draw_spec {A} (k : nat) (pool : list A) (rng : list nat) :
  (k <= length pool)%nat ->
  length (draw k pool rng).1 = k /\ (draw k pool rng).1 ⊆+ pool.
Proof.
  revert pool rng. induction k as [|k IH]; intros pool rng Hk.
  - simpl. split; [done|]. apply submseteq_nil_l.
  - cbn [draw].
    pose proof (randbelow_lt (length pool) rng ltac:(lia)) as Hj.
    destruct (randbelow (length pool) rng) as [j rng1]. simpl in Hj.
    destruct (lookup_lt_is_Some_2 pool j Hj) as [x Hx]. rewrite Hx.
    assert (Hlen : (k <= length (delete j pool))%nat).
    { rewrite length_delete by eauto. lia. }
    destruct (IH (delete j pool) rng1 Hlen) as [IH1 IH2].
    destruct (draw k (delete j pool) rng1) as [xs rng2]. simpl in *.
    split; [by rewrite IH1|].
    rewrite (delete_Permutation pool j x Hx). by apply submseteq_skip.
Qed.

Lemma draw_all_Permutation {A} (pool : list A) (rng : list nat) :
  (draw (length pool) pool rng).1 ≡ₚ pool.
Proof.
  destruct (draw_spec (length pool) pool rng) as [Hlen Hsub]; [done|].
  apply submseteq_length_Permutation; [done|]. by rewrite Hlen.
Qed.

Lemma py_list_remove_Ok (x : Z) (l l' : list Z) :
  py_list_remove x l = Ok l' -> l ≡ₚ x :: l'.
Proof.
  revert l'. induction l as [|y l IH]; intros l'; simpl; [done|].
  destruct (decide (y = x)) as [->|Hne].
  - by intros [= ->].
  - intros H. apply fmap_Ok in H as (l0 & Hl0 & ->).
    rewrite (IH l0 Hl0). apply Permutation_swap.
Qed.

Lemma py_list_remove_elem (x : Z) (l : list Z) :
  x ∈ l -> is_Ok (py_list_remove x l).
Proof.
  induction l as [|y l IH]; simpl.
  - by intros ?%elem_of_nil.
  - intros Hin. destruct (decide (y = x)) as [->|Hne]; [by eexists|].
    apply elem_of_cons in Hin as [->|Hin]; [done|].
    destruct (IH Hin) as [l' ->]. by eexists.
Qed.

Lemma py_range_NoDup (n : nat) : NoDup (py_range n).
Proof. apply (NoDup_fmap_2 Z.of_nat), NoDup_seq. Qed.

Lemma elem_of_py_range (n : nat) (x : Z) :
  x ∈ py_range n <-> 0 <= x < Z.of_nat n.
Proof.
  unfold py_range. rewrite list_elem_of_fmap. split.
  - intros (i & -> & Hi). apply elem_of_seq in Hi. lia.
  - intros H. exists (Z.to_nat x). split; [lia|]. apply elem_of_seq. lia.
Qed.

Lemma py_range_length (n : nat) : length (py_range n) = n.
Proof. unfold py_range. by rewrite length_fmap, length_seq. Qed.

(** ** Agent.setup *)

Lemma setup_Done (self : Agent) (params : Params) (env : Environment)
    (rng rng' : list nat) (a' : Agent) :
  setup self params env rng = Done (a', rng') ->
  neighbors_ok (length (population env)) (p_neighbors params) a' /\
  id a' = id self /\
  next_data a' = next_data self /\
  process_time a' = p_process_time params /\
  exists v, cur_data a' = PyInt v /\ Z.abs v <= p_max params.
Proof.
  unfold setup, randint.
  destruct (p_max params <? - p_max params) eqn:Hmax; [done|].
  pose proof (randbelow_lt (Z.to_nat (p_max params - - p_max params + 1)) rng
                ltac:(lia)) as Hj.
  destruct (randbelow _ rng) as [j rng1]. simpl in Hj.
  destruct (id self) as [i|] eqn:Hid; unfold get_id; simpl; rewrite Hid;
    simpl; [|done].
  destruct (py_list_remove i _) as [l'|] eqn:Hrem; [|done].
  unfold sample.
  destruct ((0 <=? p_neighbors params)
            && (p_neighbors params <=? Z.of_nat (length l'))) eqn:Hk; [|done].
  apply andb_prop in Hk as [Hk0 Hk1].
  destruct (draw_spec (Z.to_nat (p_neighbors params)) l' rng1) as [Hlen Hsub];
    [lia|].
  destruct (draw _ l' rng1) as [ns rng2]. simpl in Hlen, Hsub.
  intros [= <- <-]. agent_simpl.
  apply py_list_remove_Ok in Hrem.
  assert (Hnd : NoDup (i :: l')).
  { rewrite <- Hrem. apply py_range_NoDup. }
  apply NoDup_cons in Hnd as [Hi Hnd].
  repeat split; try done.
  - intros i' Hi' Hin. rewrite Hid in Hi'. injection Hi' as <-.
    apply Hi. by eapply elem_of_submseteq.
  - by eapply submseteq_NoDup.
  - apply Forall_forall. intros x Hx.
    apply (elem_of_py_range (length (population env))). rewrite Hrem.
    apply elem_of_cons. right. by eapply elem_of_submseteq.
  - simpl. lia.
  - exists (- p_max params + Z.of_nat j). split; [done|]. lia.
Qed.

Lemma setup_candidates (n : nat) (i : Z) :
  0 <= i < Z.of_nat n ->
  exists l', py_list_remove i (py_range n) = Ok l'
             /\ Z.of_nat (length l') = Z.of_nat n - 1.
Proof.
  intros Hi.
  destruct (py_list_remove_elem i (py_range n)) as [l' Hrem];
    [by apply elem_of_py_range|].
  exists l'. split; [done|].
  apply py_list_remove_Ok, Permutation_length in Hrem.
  rewrite py_range_length in Hrem. simpl in Hrem. lia.
Qed.

Lemma setup_completes (self : Agent) (params : Params) (env : Environment)
    (rng : list nat) (i : Z) :
  id self = Some i ->
  0 <= i < Z.of_nat (length (population env)) ->
  0 <= p_max params ->
  0 <= p_neighbors params <= Z.of_nat (length (population env)) - 1 ->
  exists a' rng', setup self params env rng = Done (a', rng').
Proof.
  intros Hid Hi Hmax Hk. unfold setup, randint.
  destruct (p_max params <? - p_max params) eqn:Hm; [lia|].
  destruct (randbelow _ rng) as [j rng1].
  unfold get_id; simpl; rewrite Hid; simpl.
  destruct (setup_candidates _ i Hi) as (l' & -> & Hlen).
  unfold sample.
  destruct ((0 <=? p_neighbors params)
            && (p_neighbors params <=? Z.of_nat (length l'))) eqn:Hs.
  - destruct (draw _ l' rng1) as [ns rng2]. by eexists _, _.
  - apply andb_false_iff in Hs. lia.
Qed.

(** C5 (amended). For an agent whose id is registered and a non-negative
    [max], [setup] completes whenever the neighbor count is between 0 and the
    population size minus 1, both included; it raises (ValueError, from
    [random.sample]) when the count is negative or exceeds the population size
    minus 1. *)
Theorem setup_precondition (self : Agent) (params : Params)
    (env : Environment) (rng : list nat) (i : Z) :
  id self = Some i ->
  0 <= i < Z.of_nat (length (population env)) ->
  0 <= p_max params ->
  let n := Z.of_nat (length (population env)) in
  let k := p_neighbors params in
  (0 <= k <= n - 1 -> completed (setup self params env rng) = true) /\
  (k < 0 \/ n - 1 < k ->
   exists st, setup self params env rng = Raised ValueError st).
Proof.
  intros Hid Hi Hmax n k. split.
  - intros Hk.
    destruct (setup_completes self params env rng i Hid Hi Hmax Hk)
      as (a' & rng' & ->).
    done.
  - intros Hk. unfold setup, randint.
    destruct (p_max params <? - p_max params) eqn:Hm; [lia|].
    destruct (randbelow _ rng) as [j rng1].
    unfold get_id; simpl; rewrite Hid; simpl.
    destruct (setup_candidates _ i Hi) as (l' & -> & Hlen).
    unfold sample. fold k.
    destruct ((0 <=? k) && (k <=? Z.of_nat (length l'))) eqn:Hs.
    + apply andb_prop in Hs as [Hk0 Hk1]. subst n. lia.
    + by eexists.
Qed.

Lemma setup_precondition_witness :
  completed (setup (set_id 0 fresh_agent) (mkParams 1 50 30 2 15 (PyFloat 0.25))
                   (populate 2) [7; 1]%nat) = true.
Proof.
  apply (setup_precondition (set_id 0 fresh_agent)
           (mkParams 1 50 30 2 15 (PyFloat 0.25)) (populate 2) [7; 1]%nat 0);
    simpl; (reflexivity || lia).
Defined.

(** C5 as stated fails: with two agents and a neighbor count of 1, which is
    the population size minus 1, [setup] does not fail. *)
Lemma setup_count_equal_counterexample :
  ~ (1 >= Z.of_nat (length (population (populate 2))) - 1 ->
     completed (setup (set_id 0 fresh_agent)
                      (mkParams 1 50 30 2 15 (PyFloat 0.25))
                      (populate 2) [7; 1]%nat) = false).
Proof.
  intros H. assert (H' := H ltac:(simpl; lia)). vm_compute in H'. discriminate.
Qed.

(** ** Loops *)

Lemma for_range_Done_inv {St} (body : nat -> St -> outcome St)
    (Inv : nat -> St -> Prop) (n : nat) :
  forall (i : nat) (st st' : St),
    Inv i st ->
    (forall j s s', (i <= j < i + n)%nat ->
                    Inv j s -> body j s = Done s' -> Inv (S j) s') ->
    for_range body i n st = Done st' ->
    Inv (i + n)%nat st'.
Proof.
  induction n as [|n IH]; intros i st st' Hinv Hstep; simpl.
  - intros [= <-]. by rewrite Nat.add_0_r.
  - destruct (body i st) as [s1|e s1] eqn:Hb; [|done].
    intros Hrest. replace (i + S n)%nat with (S i + n)%nat by lia.
    apply (IH (S i) s1); [|intros j s s' Hj; apply Hstep; lia|done].
    apply (Hstep i st); [lia|done|done].
Qed.

Lemma for_range_completes {St} (body : nat -> St -> outcome St)
    (Inv : nat -> St -> Prop) (n : nat) :
  forall (i : nat) (st : St),
    Inv i st ->
    (forall j s, (i <= j < i + n)%nat -> Inv j s ->
                 exists s', body j s = Done s' /\ Inv (S j) s') ->
    exists st', for_range body i n st = Done st' /\ Inv (i + n)%nat st'.
Proof.
  induction n as [|n IH]; intros i st Hinv Hstep; simpl.
  - exists st. by rewrite Nat.add_0_r.
  - destruct (Hstep i st) as (s1 & -> & Hinv1); [lia|done|].
    replace (i + S n)%nat with (S i + n)%nat by lia.
    apply IH; [done|]. intros j s Hj. apply Hstep. lia.
Qed.

Lemma for_range_final {St} (body : nat -> St -> outcome St)
    (P : St -> Prop) (n : nat) :
  (forall j s, P s -> P (final (body j s))) ->
  forall (i : nat) (st : St), P st -> P (final (for_range body i n st)).
Proof.
  intros Hbody. induction n as [|n IH]; intros i st Hst; simpl; [done|].
  specialize (Hbody i st Hst).
  destruct (body i st) as [s1|e s1]; simpl in *; [by apply IH|done].
Qed.

(** ** What a round leaves alone *)

Lemma fmap_alter_fixed {B} (g : Agent -> B) (f : Agent -> Agent)
    (pos : nat) (l : list Agent) :
  (forall a, g (f a) = g a) -> g <$> alter f pos l = g <$> l.
Proof.
  intros Hf. apply list_eq. intros i. rewrite !list_lookup_fmap.
  destruct (decide (pos = i)) as [->|Hne].
  - rewrite list_lookup_alter_eq. destruct (l !! i); simpl; [|done].
    by rewrite Hf.
  - by rewrite list_lookup_alter_ne.
Qed.

Lemma do_update_fixed (a : Agent) (data : option pyval) :
  fixed_part (do_update a data) = fixed_part a.
Proof. by destruct data as [[]|]. Qed.

Lemma commit_fixed (res : list (Z * pyval)) (env : Environment) :
  fixed_part <$> population (final (commit res env))
  = fixed_part <$> population env /\
  my_special_stuff (final (commit res env)) = my_special_stuff env.
Proof.
  revert env. induction res as [|[i data] res IH]; intros env; simpl; [done|].
  destruct (lookup_pos env i) as [pos|e]; [|done].
  destruct (population env !! pos); [|done].
  destruct (IH (alter_agent (fun a => do_update a (Some data)) pos env))
    as [-> ->].
  split; [|done]. simpl. apply fmap_alter_fixed. intros b.
  apply do_update_fixed.
Qed.

Lemma run_round_fixed (processes : Z) (arr : list nat) (env : Environment) :
  fixed_part <$> population (final (run_round processes arr env))
  = fixed_part <$> population env /\
  my_special_stuff (final (run_round processes arr env))
  = my_special_stuff env.
Proof.
  unfold run_round. destruct (processes <? 1); [done|].
  destruct (pool_map _ _ _ _); [apply commit_fixed|done].
Qed.

Lemma iteration_fixed (params : Params) (w : oracle) (i : nat)
    (st : Environment * list report) :
  fixed_part <$> population (final (iteration params w i st)).1
  = fixed_part <$> population st.1 /\
  my_special_stuff (final (iteration params w i st)).1
  = my_special_stuff st.1.
Proof.
  destruct st as [env out]. unfold iteration.
  pose proof (run_round_fixed (p_processes params) (arrival w i) env) as H.
  destruct (run_round _ _ env) as [env'|e env']; simpl in *; [|done].
  by destruct (report_agents env').
Qed.

Lemma run_iterations_fixed (params : Params) (w : oracle) (env : Environment) :
  fixed_part <$> population (final (run_iterations params w env)).1
  = fixed_part <$> population env /\
  my_special_stuff (final (run_iterations params w env)).1
  = my_special_stuff env.
Proof.
  unfold run_iterations.
  apply (for_range_final (iteration params w)
           (fun st => fixed_part <$> population st.1
                      = fixed_part <$> population env
                      /\ my_special_stuff st.1 = my_special_stuff env));
    [|done].
  intros j s [H1 H2]. destruct (iteration_fixed params w j s) as [-> ->].
  done.
Qed.

Lemma setup_inv_length params env j st :
  setup_inv params env j st ->
  length (population st.1) = length (population env).
Proof.
  intros [H _]. apply (f_equal length) in H. by rewrite !length_fmap in H.
Qed.

Lemma setup_one_inv (params : Params) (env : Environment) (j : nat)
    (s s' : Environment * list nat) :
  setup_inv params env j s ->
  setup_one params j s = Done s' ->
  setup_inv params env (S j) s'.
Proof.
  intros Hinv. pose proof (setup_inv_length _ _ _ _ Hinv) as Hlen.
  destruct Hinv as (Hids & Hsp & Hpost).
  destruct s as [e r]. unfold setup_one. simpl in *.
  destruct (population e !! j) as [a|] eqn:Ha.
  - destruct (setup a params e r) as [[a' r']|x [a' r']] eqn:Hs; [|done].
    intros [= <-]. apply setup_Done in Hs as (Hn & Hid & _ & Hpt & Hv).
    rewrite Hlen in Hn.
    split; [|split; [done|]]; simpl.
    + rewrite <- Hids. apply list_eq. intros i. rewrite !list_lookup_fmap.
      destruct (decide (j = i)) as [->|Hne].
      * rewrite list_lookup_alter_eq, Ha. simpl. by rewrite Hid.
      * by rewrite list_lookup_alter_ne.
    + intros i b Hb Hi. destruct (decide (j = i)) as [->|Hne].
      * rewrite list_lookup_alter_eq, Ha in Hb. injection Hb as <-. done.
      * rewrite list_lookup_alter_ne in Hb by done. apply (Hpost i); [done|lia].
  - intros [= <-]. split; [done|]. split; [done|]. simpl.
    intros i b Hb Hi. destruct (decide (j = i)) as [->|Hne]; [congruence|].
    apply (Hpost i); [done|lia].
Qed.

Lemma setup_all_Done (params : Params) (env env1 : Environment)
    (rng rng1 : list nat) :
  setup_all params env rng = Done (env1, rng1) ->
  id <$> population env1 = id <$> population env /\
  my_special_stuff env1 = my_special_stuff env /\
  Forall (setup_post params (length (population env))) (population env1).
Proof.
  intros H. unfold setup_all in H.
  apply (for_range_Done_inv _ (setup_inv params env)) in H.
  - pose proof (setup_inv_length _ _ _ _ H) as Hlen.
    destruct H as (H1 & H2 & H3). simpl in *.
    split; [done|]. split; [done|]. apply Forall_lookup. intros i a Ha.
    apply (H3 i a Ha). apply lookup_lt_Some in Ha. lia.
  - split; [done|]. split; [done|]. intros i a _ Hi. lia.
  - intros j s s' _. apply setup_one_inv.
Qed.

(** C6. When the setup loop has completed, every agent's neighbor list leaves
    out the agent's own id, has no duplicates, holds only valid ids of the
    population and has the configured length; the rounds that follow leave
    every neighbor list (and every id) as setup made it, however they end. *)
Theorem neighbor_invariant (params : Params) (env env1 : Environment)
    (rng rng1 : list nat) (w : oracle) :
  setup_all params env rng = Done (env1, rng1) ->
  length (population env1) = length (population env) /\
  Forall (neighbors_ok (length (population env1)) (p_neighbors params))
         (population env1) /\
  (forall a data, neighbors (do_update a data) = neighbors a) /\
  (forall a env' a' v,
     calculate_update a env' = Ok (a', v) -> neighbors a' = neighbors a) /\
  (forall processes arr,
     neighbors <$> population (final (run_round processes arr env1))
     = neighbors <$> population env1) /\
  neighbors <$> population (final (run_iterations params w env1)).1
  = neighbors <$> population env1 /\
  id <$> population (final (run_iterations params w env1)).1
  = id <$> population env1.
Proof.
  intros H. apply setup_all_Done in H as (Hids & _ & Hpost).
  assert (Hlen : length (population env1) = length (population env)).
  { apply (f_equal length) in Hids. by rewrite !length_fmap in Hids. }
  assert (Hfix : forall l1 l2 : list Agent,
             fixed_part <$> l1 = fixed_part <$> l2 ->
             neighbors <$> l1 = neighbors <$> l2 /\ id <$> l1 = id <$> l2).
  { intros l1 l2 Heq. split.
    - apply (f_equal (fmap (fun p : option Z * list Z * pyval * pyval => p.1.1.2))) in Heq.
      by rewrite <- !list_fmap_compose in Heq.
    - apply (f_equal (fmap (fun p : option Z * list Z * pyval * pyval => p.1.1.1))) in Heq.
      by rewrite <- !list_fmap_compose in Heq. }
  split; [done|]. split; [|split; [|split; [|split; [|split]]]].
  - rewrite Hlen. eapply Forall_impl; [exact Hpost|]. by intros a [Hn _].
  - by intros a [[]|].
  - intros a env' a' v Hc. unfold calculate_update in Hc.
    destruct (delay _); simpl in Hc; [|done].
    destruct (sum_neighbors _ _ _); simpl in Hc; [|done].
    destruct (py_add _ _); simpl in Hc; [|done].
    destruct (py_truediv _ _); simpl in Hc; [|done].
    by injection Hc as <- _.
  - intros processes arr. apply Hfix, run_round_fixed.
  - apply Hfix, run_iterations_fixed.
  - apply Hfix, run_iterations_fixed.
Qed.

Lemma neighbor_invariant_witness :
  Forall (neighbors_ok 3 1)
    (population
       (final (setup_all (mkParams 1 5 2 3 2 (PyFloat 0.25)) (populate 3)
                         [7; 1; 8; 2; 8; 1]%nat)).1).
Proof.
  pose proof (fun env1 rng1 =>
    neighbor_invariant (mkParams 1 5 2 3 2 (PyFloat 0.25)) (populate 3) env1
      [7; 1; 8; 2; 8; 1]%nat rng1
      (mkOracle (fun _ => 0%float) (fun _ => 1%float) (fun _ => []))) as H.
  destruct (setup_all (mkParams 1 5 2 3 2 (PyFloat 0.25)) (populate 3)
              [7; 1; 8; 2; 8; 1]%nat) as [[env1 rng1]|e [env1 rng1]] eqn:Hs;
    vm_compute in Hs; [|discriminate].
  injection Hs as <- <-.
  destruct (H _ _ eq_refl) as (_ & Hn & _). exact Hn.
Defined.

(** ** The pool *)

Lemma map_result_app {A B} (f : A -> result B) (l1 l2 : list A) :
  map_result f (l1 ++ l2)
  = ys1 ← map_result f l1; ys2 ← map_result f l2; Ok (ys1 ++ ys2).
Proof.
  induction l1 as [|x l1 IH]; simpl.
  - by destruct (map_result f l2).
  - destruct (f x); simpl; [|done]. rewrite IH.
    destruct (map_result f l1); simpl; [|done].
    by destruct (map_result f l2).
Qed.

Lemma map_result_Raise {A B} (f : A -> result B) (l : list A) (e : exn) :
  map_result f l = Raise e -> exists x, x ∈ l /\ f x = Raise e.
Proof.
  induction l as [|x l IH]; simpl; [done|].
  destruct (f x) as [y|e'] eqn:Hx; simpl.
  - destruct (map_result f l); simpl; [done|]. intros [= ->].
    destruct IH as (x' & Hin & Hx'); [done|]. exists x'. split; [|done].
    by apply elem_of_cons; right.
  - intros [= ->]. exists x. split; [|done]. by apply elem_of_cons; left.
Qed.

Lemma map_result_Ok {A B} (f : A -> result B) (l : list A) (ys : list B) :
  map_result f l = Ok ys ->
  length ys = length l /\
  forall i x, l !! i = Some x -> exists y, ys !! i = Some y /\ f x = Ok y.
Proof.
  revert ys. induction l as [|x l IH]; intros ys; simpl.
  - intros [= <-]. done.
  - destruct (f x) as [y|] eqn:Hx; simpl; [|done].
    destruct (map_result f l) as [ys'|]; simpl; [|done]. intros [= <-].
    destruct (IH ys' eq_refl) as [Hlen Hlk]. split; [simpl; lia|].
    intros [|i] x'; simpl; [|by apply Hlk]. intros [= <-]. by exists y.
Qed.

Lemma map_result_total {A B} (f : A -> result B) (l : list A) :
  (forall x, x ∈ l -> is_Ok (f x)) -> is_Ok (map_result f l).
Proof.
  induction l as [|x l IH]; intros H; simpl; [by eexists|].
  destruct (H x) as [y ->]; [by apply elem_of_cons; left|]. simpl.
  destruct IH as [ys ->]; [|by eexists].
  intros x' Hx'. apply H. by apply elem_of_cons; right.
Qed.

Lemma chunksize_pos (len procs : nat) :
  len <> 0%nat -> (1 <= chunksize len procs)%nat.
Proof.
  intros Hlen. unfold chunksize.
  destruct (Nat.eqb_spec len 0); [done|].
  destruct (Nat.eqb_spec (Nat.modulo len (procs * 4)%nat) 0) as [Hm|]; [|lia].
  destruct (Nat.eq_dec (procs * 4)%nat 0%nat) as [Hz|Hz].
  - rewrite Hz in Hm. simpl in Hm. lia.
  - pose proof (Nat.div_mod len (procs * 4)%nat Hz) as Hd. rewrite Hm in Hd.
    destruct (Nat.div len (procs * 4)%nat); lia.
Qed.

Lemma chunks_concat {A} (size : nat) :
  (1 <= size)%nat ->
  forall (fuel : nat) (l : list A),
    (length l <= fuel)%nat -> concat (chunks fuel size l) = l.
Proof.
  intros Hsize. induction fuel as [|fuel IH]; intros l Hl.
  - destruct l; [done|simpl in Hl; lia].
  - destruct l as [|x l]; [done|]. cbn [chunks concat].
    rewrite IH; [apply take_drop|].
    rewrite length_drop. simpl in *. lia.
Qed.

Lemma first_failure_None {B} (rs : list (result B)) :
  first_failure rs = None <-> Forall is_Ok rs.
Proof.
  induction rs as [|[y|e] rs IH]; simpl.
  - split; [constructor|done].
  - rewrite IH. split.
    + intros H. constructor; [by eexists|done].
    + by intros [_ H]%Forall_cons_1.
  - split; [done|]. intros [[y Hy] _]%Forall_cons_1. done.
Qed.

Lemma first_failure_Some {B} (rs : list (result B)) (e : exn) :
  first_failure rs = Some e -> Raise e ∈ rs.
Proof.
  induction rs as [|[y|e'] rs IH]; simpl; [done| |].
  - intros H. apply elem_of_cons. right. by apply IH.
  - intros [= ->]. apply elem_of_cons. by left.
Qed.

Lemma gather_Ok {A B} (f : A -> result B) (cs : list (list A)) (ys : list B) :
  map_result f (concat cs) = Ok ys ->
  Forall is_Ok (map_result f <$> cs) /\ gather (map_result f <$> cs) = ys.
Proof.
  revert ys. induction cs as [|c cs IH]; intros ys; simpl.
  - intros [= <-]. split; [constructor|done].
  - rewrite map_result_app.
    destruct (map_result f c) as [ys1|]; simpl; [|done].
    destruct (map_result f (concat cs)) as [ys2|]; simpl; [|done].
    intros [= <-]. destruct (IH ys2 eq_refl) as [H1 H2].
    split; [constructor; [by eexists|exact H1]|f_equal; exact H2].
Qed.

Lemma gather_Raise {A B} (f : A -> result B) (cs : list (list A)) (e : exn) :
  map_result f (concat cs) = Raise e -> ~ Forall is_Ok (map_result f <$> cs).
Proof.
  induction cs as [|c cs IH]; simpl; [done|].
  rewrite map_result_app. intros H [[ys1 Hc] Hcs]%Forall_cons_1.
  rewrite Hc in H. simpl in H.
  destruct (map_result f (concat cs)) as [ys2|e'] eqn:Hrest; [done|].
  simpl in H. by apply (IH H).
Qed.

Lemma elem_of_concat {A} (x : A) (c : list A) (cs : list (list A)) :
  x ∈ c -> c ∈ cs -> x ∈ concat cs.
Proof.
  intros Hx. induction cs as [|c' cs IH]; simpl.
  - by intros ?%elem_of_nil.
  - intros [->|Hc]%elem_of_cons; apply elem_of_app; [by left|right; auto].
Qed.

Lemma pool_chunks_concat {A} (procs : nat) (l : list A) :
  concat (chunks (length l) (chunksize (length l) procs) l) = l.
Proof.
  destruct l as [|x l]; [done|].
  apply chunks_concat; [|done]. by apply chunksize_pos.
Qed.

Lemma pool_map_Ok {A B} (procs : nat) (arr : list nat) (f : A -> result B)
    (l : list A) (ys : list B) :
  map_result f l = Ok ys -> pool_map procs arr f l = Ok ys.
Proof.
  intros H. unfold pool_map.
  rewrite <- (pool_chunks_concat procs l) in H at 1.
  apply gather_Ok in H as [Hall ->].
  set (finished := map_result f <$> _) in *.
  assert (first_failure (draw (length finished) finished arr).1 = None) as ->.
  { apply first_failure_None. by rewrite draw_all_Permutation. }
  done.
Qed.

Lemma pool_map_Raise {A B} (procs : nat) (arr : list nat) (f : A -> result B)
    (l : list A) (e : exn) :
  map_result f l = Raise e ->
  exists e' x, pool_map procs arr f l = Raise e' /\ x ∈ l /\ f x = Raise e'.
Proof.
  intros H. unfold pool_map.
  rewrite <- (pool_chunks_concat procs l) in H at 1.
  apply gather_Raise in H.
  set (cs := chunks _ _ l) in *.
  destruct (first_failure (draw (length (map_result f <$> cs))
                                (map_result f <$> cs) arr).1) as [e'|] eqn:Hff.
  - apply first_failure_Some in Hff. rewrite draw_all_Permutation in Hff.
    apply list_elem_of_fmap in Hff as (c & Hc & Hin).
    symmetry in Hc. apply map_result_Raise in Hc as (x & Hx & Hfx).
    exists e', x. split; [done|]. split; [|done].
    rewrite <- (pool_chunks_concat procs l). by apply (elem_of_concat x c).
  - apply first_failure_None in Hff. rewrite draw_all_Permutation in Hff. done.
Qed.

(** ** One round *)

Lemma snapshot_length (env : Environment) :
  length (snapshot env) = length (population env).
Proof. unfold snapshot. by rewrite length_fmap. Qed.

Lemma sum_neighbors_snapshot (env : Environment) (ns : list Z) (acc : pyval) :
  sum_neighbors env acc ns = sum_snapshot (snapshot env) acc ns.
Proof.
  revert acc. induction ns as [|x ns IH]; intros acc; simpl; [done|].
  unfold lookup, lookup_pos. rewrite snapshot_length.
  destruct (py_index (length (population env)) x) as [pos|e]; simpl; [|done].
  unfold snapshot. rewrite list_lookup_fmap.
  destruct (population env !! pos) as [a|]; simpl; [|done].
  destruct (py_add acc (cur_data a)); simpl; [apply IH|done].
Qed.

(** [calculate_update] computes the update function of the specification on
    the snapshot of the environment it is given, stores the value in the
    [next_data] of the agent it runs on, and returns it. *)
Lemma calculate_update_next_value (a : Agent) (env : Environment) :
  calculate_update a env
  = (fun v => (set_next_data v a, v))
      <$> next_value (snapshot env) (my_special_stuff env) a.
Proof.
  unfold calculate_update, next_value.
  destruct (delay (process_time a)); simpl; [|done].
  rewrite sum_neighbors_snapshot.
  destruct (sum_snapshot _ _ _) as [s|]; simpl; [|done].
  destruct (py_add s (cur_data a)) as [t|]; simpl; [|done].
  by destruct (py_truediv t (my_special_stuff env)).
Qed.

Lemma py_truediv_float (x y v : pyval) :
  py_truediv x y = Ok v -> exists f, v = PyFloat f.
Proof.
  destruct x as [|a|f], y as [|b|g]; simpl; try done.
  - intros (r & _ & ->)%fmap_Ok. by eexists.
  - destruct (float_of_int a); simpl; [|done].
    intros (r & _ & ->)%fmap_Ok. by eexists.
  - destruct (float_of_int b); simpl; [|done].
    intros (r & _ & ->)%fmap_Ok. by eexists.
  - intros (r & _ & ->)%fmap_Ok. by eexists.
Qed.

Lemma next_value_float (snap : list pyval) (special : pyval) (a : Agent)
    (v : pyval) :
  next_value snap special a = Ok v -> exists f, v = PyFloat f.
Proof.
  unfold next_value.
  destruct (delay _); simpl; [|done].
  destruct (sum_snapshot _ _ _) as [s|]; simpl; [|done].
  destruct (py_add s _) as [t|]; simpl; [|done].
  apply py_truediv_float.
Qed.

Lemma ids_dense_lookup (env : Environment) (i : nat) (a : Agent) :
  ids_dense env -> population env !! i = Some a -> id a = Some (Z.of_nat i).
Proof.
  intros Hd Ha. apply (f_equal (fun l => l !! i)) in Hd.
  rewrite !list_lookup_fmap, Ha in Hd.
  rewrite lookup_seq_lt in Hd by (by eapply lookup_lt_Some).
  simpl in Hd. by injection Hd.
Qed.

Lemma update_next_value (env : Environment) (a : Agent) (i : Z) :
  id a = Some i ->
  update env a
  = (fun v => (i, v)) <$> next_value (snapshot env) (my_special_stuff env) a.
Proof.
  intros Hid. unfold update, get_id. rewrite Hid. simpl.
  rewrite calculate_update_next_value. by destruct (next_value _ _ a).
Qed.

Lemma update_tagged (env : Environment) (l : list Agent) :
  forall k : nat,
    (forall j a, l !! j = Some a -> id a = Some (Z.of_nat (k + j))) ->
    map_result (update env) l
    = imap (fun j v => (Z.of_nat (k + j), v))
        <$> map_result (next_value (snapshot env) (my_special_stuff env)) l.
Proof.
  induction l as [|a l IH]; intros k Hid; simpl; [done|].
  rewrite (update_next_value env a _ (Hid 0%nat a eq_refl)).
  destruct (next_value _ _ a) as [v|]; simpl; [|done].
  rewrite (IH (S k)).
  - destruct (map_result (next_value _ _) l) as [vs|]; simpl; [|done].
    rewrite Nat.add_0_r. do 2 f_equal. apply imap_ext. intros j v' _. simpl.
    f_equal. lia.
  - intros j b Hb. rewrite (Hid (S j) b Hb). f_equal. lia.
Qed.

Lemma commit_app (r1 r2 : list (Z * pyval)) (env : Environment) :
  commit (r1 ++ r2) env
  = match commit r1 env with
    | Done env' => commit r2 env'
    | Raised e env' => Raised e env'
    end.
Proof.
  revert env. induction r1 as [|[i data] r1 IH]; intros env; simpl; [done|].
  destruct (lookup_pos env i) as [pos|]; [|done].
  destruct (population env !! pos); [|done]. apply IH.
Qed.

Lemma apply_values_all (vs : list pyval) (l : list Agent) :
  length vs = length l -> apply_values vs l = zip_with set_cur_data vs l.
Proof.
  intros Hlen. apply list_eq. intros i. unfold apply_values.
  rewrite list_lookup_imap, lookup_zip_with.
  destruct (l !! i) as [a|] eqn:Ha; simpl.
  - destruct (lookup_lt_is_Some_2 vs i) as [v Hv].
    { rewrite Hlen. by eapply lookup_lt_Some. }
    by rewrite Hv.
  - by destruct (vs !! i).
Qed.

Lemma commit_tagged (vs : list pyval) (env : Environment) :
  (length vs <= length (population env))%nat ->
  Forall (fun v => v <> PyNone) vs ->
  commit (imap (fun j v => (Z.of_nat j, v)) vs) env
  = Done (set_population (apply_values vs (population env)) env).
Proof.
  induction vs as [|v vs IH] using rev_ind; intros Hlen Hvs.
  - simpl. f_equal. destruct env as [pop sp]. unfold set_population. simpl.
    f_equal. unfold apply_values. symmetry. apply list_eq. intros i.
    rewrite list_lookup_imap. by destruct (pop !! i).
  - rewrite length_app in Hlen. simpl in Hlen.
    apply Forall_app in Hvs as [Hvs Hv]. apply Forall_cons_1 in Hv as [Hv _].
    rewrite imap_app, commit_app, IH by (done || lia). simpl.
    rewrite Nat.add_0_r. unfold lookup_pos. simpl.
    assert (Hal : length (apply_values vs (population env))
                  = length (population env)).
    { unfold apply_values. by rewrite length_imap. }
    rewrite Hal, py_index_nonneg by lia. rewrite Nat2Z.id.
    destruct (lookup_lt_is_Some_2 (apply_values vs (population env))
                (length vs)) as [b Hb]; [lia|].
    rewrite Hb. f_equal. unfold alter_agent, set_population. simpl. f_equal.
    apply list_eq. intros i. unfold apply_values in *.
    destruct (decide (length vs = i)) as [<-|Hne].
    + rewrite list_lookup_alter_eq, !list_lookup_imap.
      rewrite lookup_app_r, Nat.sub_diag by lia. simpl.
      rewrite lookup_ge_None_2 by lia.
      destruct (population env !! length vs) as [a|]; simpl; [|done].
      f_equal. unfold do_update. simpl. by destruct v.
    + rewrite list_lookup_alter_ne, !list_lookup_imap by done.
      destruct (population env !! i) as [a|]; simpl; [|done]. f_equal.
      destruct (decide (i < length vs)%nat).
      * by rewrite lookup_app_l by done.
      * rewrite !lookup_ge_None_2; [done| |lia].
        rewrite length_app. simpl. lia.
Qed.

Lemma run_round_Done (processes : Z) (arr : list nat) (env : Environment)
    (vs : list pyval) :
  ids_dense env ->
  1 <= processes ->
  next_values env = Ok vs ->
  run_round processes arr env = Done (committed vs env).
Proof.
  intros Hd Hp Hvs. unfold run_round, initializer.
  destruct (processes <? 1) eqn:Hlt; [lia|].
  assert (Hres : map_result (update env) (population env)
                 = Ok (imap (fun j v => (Z.of_nat j, v)) vs)).
  { rewrite (update_tagged env (population env) 0).
    - unfold next_values in Hvs. by rewrite Hvs.
    - intros j a Ha. by apply (ids_dense_lookup env). }
  rewrite (pool_map_Ok _ _ _ _ _ Hres).
  destruct (map_result_Ok _ _ _ Hvs) as [Hlen Hlk].
  rewrite commit_tagged.
  - unfold committed. by rewrite apply_values_all.
  - lia.
  - apply Forall_lookup. intros i v Hv.
    destruct (lookup_lt_is_Some_2 (population env) i) as [a Ha].
    { rewrite <- Hlen. by eapply lookup_lt_Some. }
    destruct (Hlk i a Ha) as (v' & Hv' & Hnv).
    assert (v' = v) as -> by congruence.
    apply next_value_float in Hnv as [f ->]. done.
Qed.

Lemma run_round_Raised (processes : Z) (arr : list nat) (env : Environment)
    (e : exn) :
  map_result (update env) (population env) = Raise e ->
  exists e', run_round processes arr env = Raised e' env.
Proof.
  intros H. unfold run_round, initializer.
  destruct (processes <? 1); [by eexists|].
  destruct (pool_map_Raise (Z.to_nat processes) arr _ _ _ H)
    as (e' & x & -> & _). by eexists.
Qed.

Lemma update_Raise (env : Environment) (a : Agent) (e : exn) :
  calculate_update a env = Raise e -> exists e', update env a = Raise e'.
Proof.
  intros H. unfold update. destruct (get_id a); simpl; [|by eexists].
  rewrite H. by eexists.
Qed.

Lemma map_result_fails {A B} (f : A -> result B) (l : list A) (x : A)
    (e : exn) :
  x ∈ l -> f x = Raise e -> exists e', map_result f l = Raise e'.
Proof.
  intros Hx Hf. destruct (map_result f l) as [ys|e'] eqn:Hm; [|by eexists].
  apply list_elem_of_lookup in Hx as [i Hi].
  destruct (map_result_Ok _ _ _ Hm) as [_ Hlk].
  destruct (Hlk i x Hi) as (y & _ & Hy). congruence.
Qed.

Lemma map_result_Ok_elem {A B} (f : A -> result B) (l : list A)
    (ys : list B) :
  map_result f l = Ok ys -> Forall (fun y => exists x, x ∈ l /\ f x = Ok y) ys.
Proof.
  revert ys. induction l as [|x l IH]; intros ys; simpl.
  - intros [= <-]. constructor.
  - destruct (f x) as [y|] eqn:Hx; simpl; [|done].
    destruct (map_result f l) as [ys'|]; simpl; [|done]. intros [= <-].
    constructor.
    + exists x. split; [by apply elem_of_cons; left|done].
    + eapply Forall_impl; [by apply IH|]. intros y' (x' & Hin & Hx').
      exists x'. split; [by apply elem_of_cons; right|done].
Qed.

Lemma pool_map_Ok_inv {A B} (procs : nat) (arr : list nat)
    (f : A -> result B) (l : list A) (ys : list B) :
  pool_map procs arr f l = Ok ys -> map_result f l = Ok ys.
Proof.
  intros H. destruct (map_result f l) as [ys'|e] eqn:Hm.
  - rewrite (pool_map_Ok procs arr f l ys' Hm) in H. congruence.
  - destruct (pool_map_Raise procs arr f l e Hm) as (e' & x & He' & _).
    congruence.
Qed.

Lemma commit_values (Q : pyval -> Prop) (res : list (Z * pyval)) :
  Forall (fun r => Q r.2 /\ r.2 <> PyNone) res ->
  forall (env : Environment) (i : nat) (a' : Agent),
    population (final (commit res env)) !! i = Some a' ->
    exists a, population env !! i = Some a /\
              fixed_part a' = fixed_part a /\
              (cur_data a' = cur_data a \/ Q (cur_data a')).
Proof.
  induction res as [|[k data] res IH]; intros Hres env i a'; simpl.
  - intros Ha'. exists a'. auto.
  - apply Forall_cons_1 in Hres as [[HQ Hnone] Hres]. simpl in HQ, Hnone.
    destruct (lookup_pos env k) as [pos|]; simpl; [|by eexists; eauto].
    destruct (population env !! pos) as [b|] eqn:Hb; simpl;
      [|by eexists; eauto].
    intros Ha'. destruct (IH Hres _ i a' Ha') as (a1 & Ha1 & Hfix & Hcur).
    simpl in Ha1. destruct (decide (pos = i)) as [->|Hne].
    + rewrite list_lookup_alter_eq, Hb in Ha1. simpl in Ha1.
      injection Ha1 as <-. exists b. split; [done|].
      split; [by rewrite Hfix, do_update_fixed|]. right.
      destruct Hcur as [->|HQ']; [|done].
      unfold do_update. simpl. by destruct data.
    + rewrite list_lookup_alter_ne in Ha1 by done. by exists a1.
Qed.

(** C1. Barrier. After a round, however it ends, every agent still has its
    id, neighbors, next_data and process_time, and its current value is either
    its round-start value or a value of the update function on the round-start
    snapshot. In a population with dense ids, a round in which every agent's
    [calculate_update] succeeds on the round-start environment completes, and
    the value committed to each agent is the update function applied to the
    round-start snapshot, the shared constant and the agent's own round-start
    fields: the value [calculate_update] returns on the environment as it was
    before any commit of the round, whatever the number of processes and the
    order in which the workers finish. *)
Theorem barrier_correctness (processes : Z) (arr : list nat)
    (env : Environment) :
  (forall i a',
     population (final (run_round processes arr env)) !! i = Some a' ->
     exists a,
       population env !! i = Some a /\
       fixed_part a' = fixed_part a /\
       (cur_data a' = cur_data a \/
        exists b, b ∈ population env /\
                  next_value (snapshot env) (my_special_stuff env) b
                  = Ok (cur_data a'))) /\
  (ids_dense env ->
   1 <= processes ->
   (forall a, a ∈ population env -> is_Ok (calculate_update a env)) ->
   exists env',
     run_round processes arr env = Done env' /\
     length (population env') = length (population env) /\
     forall i a, population env !! i = Some a ->
       exists a',
         population env' !! i = Some a' /\
         next_value (snapshot env) (my_special_stuff env) a
         = Ok (cur_data a') /\
         snd <$> calculate_update a env = Ok (cur_data a') /\
         fixed_part a' = fixed_part a).
Proof.
  split.
  - intros i a'. unfold run_round, initializer.
    destruct (processes <? 1); simpl; [by eexists; eauto|].
    destruct (pool_map _ _ _ _) as [res|e] eqn:Hpool; simpl;
      [|by eexists; eauto].
    apply pool_map_Ok_inv, map_result_Ok_elem in Hpool.
    apply (commit_values
             (fun v => exists b, b ∈ population env /\
                next_value (snapshot env) (my_special_stuff env) b = Ok v)).
    eapply Forall_impl; [exact Hpool|].
    intros [k v] (b & Hb & Hup). simpl.
    unfold update in Hup. destruct (get_id b); simpl in Hup; [|done].
    rewrite calculate_update_next_value in Hup.
    destruct (next_value _ _ b) as [v'|] eqn:Hnv; simpl in Hup; [|done].
    injection Hup as _ ->. split; [by exists b|].
    apply next_value_float in Hnv as [f ->]. done.
  - intros Hd Hp Hall.
    destruct (map_result_total
                (next_value (snapshot env) (my_special_stuff env))
                (population env)) as [vs Hvs].
    { intros a Ha. destruct (Hall a Ha) as [[a' v] Hc].
      rewrite calculate_update_next_value in Hc.
      apply fmap_Ok in Hc as (v' & Hv' & _). by exists v'. }
    exists (committed vs env). split; [by apply run_round_Done|].
    destruct (map_result_Ok _ _ _ Hvs) as [Hlen Hlk].
    split.
    { unfold committed. simpl. rewrite length_zip_with. lia. }
    intros i a Ha. destruct (Hlk i a Ha) as (v & Hv & Hnv).
    exists (set_cur_data v a). unfold committed. simpl.
    rewrite lookup_zip_with, Hv, Ha. simpl. split; [done|]. split; [done|].
    split; [|done]. rewrite calculate_update_next_value, Hnv. done.
Qed.

Lemma barrier_correctness_witness :
  exists env',
    run_round 15 [2; 0; 1]%nat scenario_env = Done env' /\
    length (population env') = length (population scenario_env) /\
    forall i a, population scenario_env !! i = Some a ->
      exists a',
        population env' !! i = Some a' /\
        next_value (snapshot scenario_env) (my_special_stuff scenario_env) a
        = Ok (cur_data a') /\
        snd <$> calculate_update a scenario_env = Ok (cur_data a') /\
        fixed_part a' = fixed_part a.
Proof.
  apply (proj2 (barrier_correctness 15 [2; 0; 1]%nat scenario_env)).
  - reflexivity.
  - lia.
  - intros a Ha. unfold scenario_env in Ha. simpl in Ha.
    repeat (apply elem_of_cons in Ha as [->|Ha]);
      [eexists; vm_compute; reflexivity ..|].
    by apply elem_of_nil in Ha.
Defined.

(** C2. In the scenario, one round commits 30, 50 and 40 (as the floats 30.0,
    50.0 and 40.0, which Python compares equal to these integers): the values
    of the update formula on the pre-round values 10, 20, 30. Agent 2 gets
    30 + 10 = 40 from the old value of agent 0; on an environment in which
    agent 0 were already committed it would compute 60. *)
Theorem scenario_one_round (processes : Z) (arr : list nat) :
  1 <= processes ->
  snapshot scenario_env = [PyInt 10; PyInt 20; PyInt 30] /\
  next_values scenario_env = Ok [PyFloat 30; PyFloat 50; PyFloat 40] /\
  run_round processes arr scenario_env
  = Done (mkEnvironment
            [ mkAgent [1] (PyFloat 30) PyNone (PyInt 0) (Some 0);
              mkAgent [2] (PyFloat 50) PyNone (PyInt 0) (Some 1);
              mkAgent [0] (PyFloat 40) PyNone (PyInt 0) (Some 2) ]
            (PyInt 1)) /\
  py_eq (PyFloat 30) (PyInt 30) = true /\
  py_eq (PyFloat 50) (PyInt 50) = true /\
  py_eq (PyFloat 40) (PyInt 40) = true /\
  snd <$> calculate_update (mkAgent [0] (PyInt 30) PyNone (PyInt 0) (Some 2))
            (alter_agent (fun a => do_update a (Some (PyFloat 30))) 0
                         scenario_env)
  = Ok (PyFloat 60).
Proof.
  intros Hp. split; [done|].
  assert (Hvs : next_values scenario_env
                = Ok [PyFloat 30; PyFloat 50; PyFloat 40]).
  { vm_compute. reflexivity. }
  split; [done|]. split.
  - by rewrite (run_round_Done processes arr scenario_env _ eq_refl Hp Hvs).
  - repeat split; vm_compute; reflexivity.
Qed.

Lemma scenario_one_round_witness :
  run_round 15 [2; 0; 1]%nat scenario_env
  = Done (mkEnvironment
            [ mkAgent [1] (PyFloat 30) PyNone (PyInt 0) (Some 0);
              mkAgent [2] (PyFloat 50) PyNone (PyInt 0) (Some 1);
              mkAgent [0] (PyFloat 40) PyNone (PyInt 0) (Some 2) ]
            (PyInt 1)).
Proof.
  apply (scenario_one_round 15 [2; 0; 1]%nat). lia.
Defined.

(** C3. If the update computation of some agent of the population raises,
    the round raises before its commit loop: the environment after the failed
    round is the environment before it, and the iteration of [doit] that ran
    the round ends there, with nothing printed. *)
Theorem round_atomic_on_failure (params : Params) (w : oracle) (i : nat)
    (out : list report) (processes : Z) (arr : list nat)
    (env : Environment) (a : Agent) (e : exn) :
  a ∈ population env ->
  calculate_update a env = Raise e ->
  (exists e', run_round processes arr env = Raised e' env) /\
  (exists e', iteration params w i (env, out) = Raised e' (env, out)).
Proof.
  intros Ha Hc. apply update_Raise in Hc as [e1 He1].
  destruct (map_result_fails (update env) (population env) a e1 Ha He1)
    as [e2 He2].
  split; [by eapply run_round_Raised|].
  unfold iteration.
  destruct (run_round_Raised (p_processes params) (arrival w i) env e2 He2)
    as [e3 ->].
  by eexists.
Qed.

Lemma round_atomic_on_failure_witness :
  exists e', run_round 15 [2; 0; 1]%nat failing_env = Raised e' failing_env.
Proof.
  apply (round_atomic_on_failure params
           (mkOracle (fun _ => 0%float) (fun _ => 1%float) (fun _ => []))
           0 [] 15 [2; 0; 1]%nat failing_env
           (mkAgent [1] (PyInt 10) PyNone (PyInt 0) (Some 0)) TypeError).
  - apply elem_of_cons. by left.
  - reflexivity.
Defined.

(** ** Environments on which a round cannot raise *)

Lemma py_index_in_range (len : nat) (i : Z) :
  - Z.of_nat len <= i < Z.of_nat len ->
  exists pos, py_index len i = Ok pos /\ (pos < len)%nat.
Proof.
  intros H. destruct (py_index len i) as [pos|e] eqn:Hp.
  - exists pos. split; [done|]. by apply py_index_Ok in Hp as [? _].
  - apply py_index_Raise in Hp. lia.
Qed.

Lemma float_of_int_small (z : Z) :
  Z.abs z < float_limit -> exists f, float_of_int z = Ok f.
Proof.
  intros H. unfold float_of_int.
  destruct (Z.abs z <? float_limit) eqn:Hlt; [by eexists|lia].
Qed.

Lemma py_add_ready (m b : Z) (x y : pyval) :
  value_ok m x -> value_ok b y -> m + b < float_limit ->
  0 <= m -> 0 <= b ->
  exists z, py_add x y = Ok z /\ value_ok (m + b) z.
Proof.
  intros Hx Hy Hlim Hm Hb. destruct x as [|a|f], y as [|c|g]; simpl in *;
    try done.
  - eexists. split; [done|]. simpl. lia.
  - destruct (float_of_int_small a) as [f ->]; [lia|]. by eexists.
  - destruct (float_of_int_small c) as [g ->]; [lia|]. by eexists.
  - by eexists.
Qed.

Lemma sum_snapshot_ready (snap : list pyval) (b : Z) (ns : list Z) :
  0 <= b ->
  Forall (value_ok b) snap ->
  Forall (fun x => - Z.of_nat (length snap) <= x < Z.of_nat (length snap)) ns ->
  forall (acc : pyval) (m : Z),
    0 <= m -> value_ok m acc ->
    m + Z.of_nat (length ns) * b < float_limit ->
    exists acc', sum_snapshot snap acc ns = Ok acc'
                 /\ value_ok (m + Z.of_nat (length ns) * b) acc'.
Proof.
  intros Hb Hsnap. induction ns as [|x ns IH]; intros Hns acc m Hm Hacc Hlim.
  - exists acc. split; [done|]. simpl. by rewrite Z.add_0_r.
  - apply Forall_cons_1 in Hns as [Hx Hns]. cbn [sum_snapshot].
    destruct (py_index_in_range _ _ Hx) as (pos & -> & Hpos). simpl.
    destruct (lookup_lt_is_Some_2 snap pos Hpos) as [v Hv]. rewrite Hv.
    assert (Hvok : value_ok b v).
    { by eapply (proj1 (Forall_lookup _ _) Hsnap). }
    simpl length in Hlim.
    destruct (py_add_ready m b acc v) as (acc1 & -> & Hacc1);
      [done|done|nia|done|done|]. simpl.
    destruct (IH Hns acc1 (m + b)) as (acc' & -> & Hacc'); [lia|done|lia|].
    exists acc'. split; [done|]. simpl length.
    replace (m + Z.of_nat (S (length ns)) * b)
      with (m + b + Z.of_nat (length ns) * b) by lia.
    done.
Qed.

Lemma py_truediv_ready (m : Z) (t d : pyval) :
  value_ok m t -> m < float_limit -> divisor_ok d ->
  exists f, py_truediv t d = Ok (PyFloat f).
Proof.
  intros Ht Hm Hd. destruct t as [|a|f], d as [|c|g]; simpl in *; try done.
  - destruct Hd as [Hc _]. unfold int_truediv.
    destruct (Z.eqb_spec c 0); [done|].
    destruct (Z.abs a <? float_limit * Z.abs c) eqn:Hlt; [by eexists|].
    apply Z.ltb_ge in Hlt. nia.
  - destruct (float_of_int_small a) as [f ->]; [lia|]. simpl.
    unfold float_truediv. rewrite Hd. by eexists.
  - destruct Hd as (_ & g & -> & Hg). simpl.
    unfold float_truediv. rewrite Hg. by eexists.
  - unfold float_truediv. rewrite Hd. by eexists.
Qed.

Lemma ready_snapshot (b : Z) (env : Environment) :
  round_ready b env -> Forall (value_ok b) (snapshot env).
Proof.
  intros (_ & _ & _ & Hag). unfold snapshot. apply Forall_fmap.
  eapply Forall_impl; [exact Hag|]. by intros a (_ & Hv & _).
Qed.

Lemma next_value_ready (b : Z) (env : Environment) (a : Agent) :
  round_ready b env -> a ∈ population env ->
  exists f, next_value (snapshot env) (my_special_stuff env) a = Ok (PyFloat f).
Proof.
  intros Hr Ha. pose proof (ready_snapshot b env Hr) as Hsnap.
  destruct Hr as (Hb & _ & Hdiv & Hag).
  apply (proj1 (Forall_forall _ _) Hag) in Ha as (Hns & Hv & Hpt & Hlim).
  unfold next_value.
  unfold delay_ok in Hpt. rewrite Hpt. simpl.
  destruct (sum_snapshot_ready (snapshot env) b (neighbors a) Hb Hsnap)
    with (acc := PyInt 0) (m := 0) as (s & -> & Hs);
    [by rewrite snapshot_length|done|simpl; lia|lia|]. simpl.
  destruct (py_add_ready _ b s (cur_data a) Hs Hv) as (t & -> & Ht);
    [lia|lia|done|]. simpl.
  eapply py_truediv_ready; [exact Ht|lia|done].
Qed.

Lemma next_values_ready (b : Z) (env : Environment) :
  round_ready b env ->
  exists vs, next_values env = Ok vs
             /\ length vs = length (population env)
             /\ Forall (fun v => exists f, v = PyFloat f) vs.
Proof.
  intros Hr.
  destruct (map_result_total
              (next_value (snapshot env) (my_special_stuff env))
              (population env)) as [vs Hvs].
  { intros a Ha. destruct (next_value_ready b env a Hr Ha) as [f ->].
    by eexists. }
  exists vs. split; [done|].
  destruct (map_result_Ok _ _ _ Hvs) as [Hlen Hlk]. split; [done|].
  apply Forall_lookup. intros i v Hv.
  destruct (lookup_lt_is_Some_2 (population env) i) as [a Ha].
  { rewrite <- Hlen. by eapply lookup_lt_Some. }
  destruct (Hlk i a Ha) as (v' & Hv' & Hnv).
  assert (v' = v) as -> by congruence. by eapply next_value_float.
Qed.

Lemma committed_ready (b : Z) (env : Environment) (vs : list pyval) :
  round_ready b env ->
  length vs = length (population env) ->
  Forall (fun v => exists f, v = PyFloat f) vs ->
  round_ready b (committed vs env).
Proof.
  intros (Hb & Hd & Hdiv & Hag) Hlen Hvs.
  assert (Hl : length (zip_with set_cur_data vs (population env))
               = length (population env)).
  { rewrite length_zip_with. lia. }
  split; [done|]. split; [|split; [done|]].
  - unfold ids_dense, committed in *. simpl. rewrite Hl, <- Hd.
    apply list_eq. intros i. rewrite !list_lookup_fmap, lookup_zip_with.
    destruct (vs !! i) as [v|] eqn:Hv; simpl.
    + by destruct (population env !! i).
    + rewrite lookup_ge_None_2; [done|]. apply lookup_ge_None in Hv. lia.
  - unfold committed. simpl. rewrite Hl. apply Forall_lookup. intros i a' Ha'.
    rewrite lookup_zip_with in Ha'.
    destruct (vs !! i) as [v|] eqn:Hv; simpl in Ha'; [|done].
    destruct (population env !! i) as [a|] eqn:Ha; simpl in Ha'; [|done].
    injection Ha' as <-.
    destruct (proj1 (Forall_lookup _ _) Hag i a Ha) as (Hns & _ & Hpt & Hlim).
    destruct (proj1 (Forall_lookup _ _) Hvs i v Hv) as [f ->].
    by repeat split.
Qed.

Lemma report_agents_dense (env : Environment) :
  ids_dense env ->
  report_agents env
  = Ok (imap (fun i a => (Z.of_nat i, cur_data a)) (population env)).
Proof.
  intros Hd. unfold report_agents.
  assert (H : forall (l : list Agent) (k : nat),
             (forall j a, l !! j = Some a -> id a = Some (Z.of_nat (k + j))) ->
             map_result (fun x => i ← get_id x; Ok (i, cur_data x)) l
             = Ok (imap (fun i a => (Z.of_nat (k + i), cur_data a)) l)).
  { induction l as [|a l IH]; intros k Hid; simpl; [done|].
    assert (Hg : get_id a = Ok (Z.of_nat (k + 0))).
    { unfold get_id. by rewrite (Hid 0%nat a eq_refl). }
    rewrite Hg. simpl.
    rewrite (IH (S k)).
    - simpl. rewrite Nat.add_0_r. do 2 f_equal. apply imap_ext.
      intros j c _. simpl. do 2 f_equal. lia.
    - intros j c Hc. rewrite (Hid (S j) c Hc). do 2 f_equal. lia. }
  apply (H (population env) 0%nat). intros j a Ha.
  by apply (ids_dense_lookup env).
Qed.

Lemma round_ready_step (b : Z) (processes : Z) (arr : list nat)
    (env : Environment) :
  round_ready b env -> 1 <= processes ->
  run_round processes arr env = Done (round_step env)
  /\ round_ready b (round_step env).
Proof.
  intros Hr Hp. destruct (next_values_ready b env Hr) as (vs & Hvs & Hlen & Hf).
  unfold round_step. rewrite Hvs. split.
  - apply run_round_Done; [by destruct Hr as (_ & ? & _)|done|done].
  - by apply committed_ready.
Qed.

(** ** The round loop *)

Lemma iteration_ready (b : Z) (params : Params) (w : oracle)
    (env : Environment) (j : nat) (st : Environment * list report) :
  1 <= p_processes params ->
  loop_inv b w env j st ->
  exists st', iteration params w j st = Done st' /\ loop_inv b w env (S j) st'.
Proof.
  intros Hp (Hr & Henv & Hout). destruct st as [e out]. simpl in *.
  destruct (round_ready_step b (p_processes params) (arrival w j) e Hr Hp)
    as [Hrun Hr'].
  unfold iteration. rewrite Hrun.
  rewrite report_agents_dense by (by destruct Hr' as (_ & ? & _)).
  eexists. split; [done|]. split; [done|]. cbn [fst snd]. split.
  - by rewrite Henv.
  - rewrite seq_S, fmap_app, Hout. cbn [fmap list_fmap]. do 2 f_equal.
    unfold expected_report. by rewrite Henv.
Qed.

Lemma run_iterations_ready (b : Z) (params : Params) (w : oracle)
    (env : Environment) :
  round_ready b env ->
  1 <= p_processes params ->
  run_iterations params w env
  = Done (Nat.iter (Z.to_nat (p_iterations params)) round_step env,
          expected_report w env <$> seq 0 (Z.to_nat (p_iterations params))).
Proof.
  intros Hr Hp. unfold run_iterations.
  destruct (for_range_completes (iteration params w) (loop_inv b w env)
              (Z.to_nat (p_iterations params)) 0 (env, []))
    as ([e out] & -> & _ & He & Hout).
  - by split.
  - intros j s _. by apply iteration_ready.
  - simpl in *. by rewrite He, Hout.
Qed.

Lemma iteration_reports (params : Params) (w : oracle) (j : nat)
    (st : Environment * list report) :
  match iteration params w j st with
  | Done st' => length st'.2 = S (length st.2)
  | Raised _ st' => st'.2 = st.2
  end.
Proof.
  destruct st as [e out]. unfold iteration.
  destruct (run_round _ _ e) as [e'|x e']; [|done].
  destruct (report_agents e'); [|done].
  simpl. rewrite length_app. simpl. lia.
Qed.

Lemma for_range_reports (params : Params) (w : oracle) (n : nat) :
  forall (i : nat) (st : Environment * list report),
    let o := for_range (iteration params w) i n st in
    (length (final o).2 <= length st.2 + n)%nat /\
    (completed o = true -> length (final o).2 = (length st.2 + n)%nat).
Proof.
  induction n as [|n IH]; intros i st; simpl.
  - split; [lia|]. intros _. lia.
  - pose proof (iteration_reports params w i st) as Hit.
    destruct (iteration params w i st) as [st'|x st']; simpl.
    + destruct (IH (S i) st') as [Hle Heq]. split; [lia|].
      intros Hc. rewrite (Heq Hc). lia.
    + split; [rewrite Hit; lia|done].
Qed.

(** C8 (amended: the count is N on the environments on which rounds cannot
    raise, not on every environment). The loop of [doit] run for N iterations
    prints at most N reports, and exactly N whenever it completes; with N = 0
    it completes with nothing printed and the environment unchanged. On an
    environment on which rounds cannot raise (dense ids, neighbor ids that are
    indexes, numeric values whose sums convert to a float, a delay that is
    accepted, a divisor that is not zero), and with at least one process, it
    does complete: it prints exactly N reports, numbered 0 to N-1 in order,
    one per round, and leaves the environment that N rounds of commits
    produce (one report and one round of commits when N = 1). *)
Theorem round_count (params : Params) (w : oracle) (env : Environment) :
  let N := Z.to_nat (p_iterations params) in
  let o := run_iterations params w env in
  (length (final o).2 <= N)%nat /\
  (completed o = true -> length (final o).2 = N) /\
  (N = 0%nat -> o = Done (env, [])) /\
  (forall b,
     round_ready b env -> 1 <= p_processes params ->
     exists env' out,
       o = Done (env', out) /\
       length out = N /\
       r_iteration <$> out = Z.of_nat <$> seq 0 N /\
       out = expected_report w env <$> seq 0 N /\
       env' = Nat.iter N round_step env /\
       (N = 1%nat -> exists r, out = [r] /\ env' = round_step env)).
Proof.
  intros N o. subst N o.
  destruct (for_range_reports params w (Z.to_nat (p_iterations params)) 0
              (env, [])) as [Hle Heq].
  split; [exact Hle|]. split; [exact Heq|]. split.
  - unfold run_iterations. by intros ->.
  - intros b Hr Hp. eexists _, _.
    split; [by apply (run_iterations_ready b)|].
    split; [by rewrite length_fmap, length_seq|].
    split; [by rewrite <- list_fmap_compose|].
    split; [done|]. split; [done|].
    intros ->. by eexists.
Qed.

Ltac ready_scenario :=
  split; [lia|]; split; [reflexivity|]; split;
  [ split; [lia|]; eexists; split; vm_compute; reflexivity
  | repeat constructor; simpl; try lia; try discriminate;
    vm_compute; reflexivity ].

Lemma round_count_witness :
  exists env' out,
    run_iterations (mkParams 1 30 2 3 15 (PyInt 0))
      (mkOracle (fun _ => 0%float) (fun _ => 1%float) (fun _ => []))
      scenario_env = Done (env', out) /\
    length out = 2%nat.
Proof.
  destruct (round_count (mkParams 1 30 2 3 15 (PyInt 0))
              (mkOracle (fun _ => 0%float) (fun _ => 1%float) (fun _ => []))
              scenario_env) as (_ & _ & _ & H).
  destruct (H 30) as (env' & out & H1 & H2 & _).
  - ready_scenario.
  - simpl. lia.
  - exists env', out. split; [exact H1|exact H2].
Defined.

(** C8 as stated fails: the count is not N on every environment. With the
    module's own parameters (30 iterations), over the twenty agents the
    constructor has registered and [setup] has not initialised, the first
    round raises TypeError and none of the 30 reports is printed; and [doit]
    itself, with a process time of [1e10] seconds, sets the agents up and
    then raises OverflowError in the first round, with no report either. *)
Lemma round_count_raising_counterexample :
  length (final (run_iterations params
                   (mkOracle (fun _ => 0%float) (fun _ => 1%float)
                             (fun _ => []))
                   (populate 20))).2
  <> Z.to_nat (p_iterations params) /\
  length (final (doit (set_delay (PyFloat 1e10) params) []
                   (mkOracle (fun _ => 0%float) (fun _ => 1%float)
                             (fun _ => [])))).2
  <> Z.to_nat (p_iterations (set_delay (PyFloat 1e10) params)).
Proof.
  split; vm_compute; discriminate.
Qed.

(** ** The whole of [doit] *)

Lemma setup_all_ready (params : Params) (rng : list nat) :
  0 <= p_max params ->
  (0 < p_agents params -> 0 <= p_neighbors params <= p_agents params - 1) ->
  delay_ok (p_process_time params) ->
  (p_neighbors params + 1) * p_max params < float_limit ->
  exists env1 rng1,
    setup_all params (populate (p_agents params)) rng = Done (env1, rng1)
    /\ round_ready (p_max params) env1.
Proof.
  intros Hmax Hk Hpt Hlim. set (env := populate (p_agents params)).
  assert (Hn : length (population env) = Z.to_nat (p_agents params))
    by apply populate_length.
  assert (Hd : ids_dense env) by apply populate_dense.
  unfold setup_all.
  destruct (for_range_completes (setup_one params) (setup_inv params env)
              (length (population env)) 0 (env, rng))
    as ([env1 rng1] & Hrun & Hinv).
  - split; [done|]. split; [done|]. intros i a _ Hi. lia.
  - intros j s Hj Hinv.
    pose proof (setup_inv_length _ _ _ _ Hinv) as Hlen.
    destruct s as [e r]. simpl in Hlen.
    destruct (lookup_lt_is_Some_2 (population e) j) as [a Ha]; [lia|].
    assert (Hid : id a = Some (Z.of_nat j)).
    { destruct Hinv as (Hids & _). simpl in Hids.
      apply (f_equal (fun l => l !! j)) in Hids.
      rewrite !list_lookup_fmap, Ha in Hids. simpl in Hids.
      destruct (population env !! j) as [a0|] eqn:Ha0; [|done].
      simpl in Hids. injection Hids as ->. by apply (ids_dense_lookup env). }
    destruct (setup_completes a params e r (Z.of_nat j) Hid)
      as (a' & r' & Hdone); [lia|done|lia|].
    assert (exists s', setup_one params j (e, r) = Done s') as [s' Hs'].
    { unfold setup_one. rewrite Ha, Hdone. by eexists. }
    exists s'. split; [done|]. by eapply setup_one_inv.
  - exists env1, rng1. split; [done|].
    pose proof (setup_inv_length _ _ _ _ Hinv) as Hlen.
    destruct Hinv as (Hids & Hsp & Hpost). simpl in *.
    split; [done|]. split; [|split].
    + unfold ids_dense in *. by rewrite Hids, Hlen.
    + rewrite Hsp. unfold env. rewrite populate_eq. simpl.
      split; [done|]. eexists. split; vm_compute; reflexivity.
    + apply Forall_lookup. intros i a Ha.
      destruct (Hpost i a Ha) as ((_ & _ & Hns & Hcnt) & Hp & v & Hv & Hvb).
      { apply lookup_lt_Some in Ha. lia. }
      split; [|split; [|split]].
      * rewrite Hlen. eapply Forall_impl; [exact Hns|]. simpl. lia.
      * by rewrite Hv.
      * by rewrite Hp.
      * by rewrite Hcnt.
Qed.

(** With parameters that respect the precondition of [setup] and at least one
    process, [doit] completes and prints as many reports as iterations. *)
Lemma doit_round_count (params : Params) (rng : list nat) (w : oracle) :
  0 <= p_max params ->
  (0 < p_agents params -> 0 <= p_neighbors params <= p_agents params - 1) ->
  delay_ok (p_process_time params) ->
  (p_neighbors params + 1) * p_max params < float_limit ->
  1 <= p_processes params ->
  exists env' out,
    doit params rng w = Done (env', out)
    /\ length out = Z.to_nat (p_iterations params).
Proof.
  intros Hmax Hk Hpt Hlim Hp.
  destruct (setup_all_ready params rng Hmax Hk Hpt Hlim)
    as (env1 & rng1 & Hsetup & Hr).
  unfold doit. rewrite Hsetup.
  rewrite (run_iterations_ready _ params w env1 Hr Hp).
  eexists _, _. split; [done|]. by rewrite length_fmap, length_seq.
Qed.

Lemma doit_params_count (rng : list nat) (w : oracle) :
  exists env' out, doit params rng w = Done (env', out) /\ length out = 30%nat.
Proof.
  apply (doit_round_count params rng w); simpl; try lia; try done.
Qed.

(** ** Determinism *)

Lemma run_round_schedule_free (p1 p2 : Z) (arr1 arr2 : list nat)
    (env : Environment) :
  1 <= p1 -> 1 <= p2 ->
  completed (run_round p1 arr1 env) = completed (run_round p2 arr2 env) /\
  final (run_round p1 arr1 env) = final (run_round p2 arr2 env).
Proof.
  intros H1 H2. unfold run_round, initializer.
  destruct (p1 <? 1) eqn:Hp1; [lia|]. destruct (p2 <? 1) eqn:Hp2; [lia|].
  destruct (map_result (update env) (population env)) as [res|e] eqn:Hres.
  - by rewrite !(pool_map_Ok _ _ _ _ _ Hres).
  - destruct (pool_map_Raise (Z.to_nat p1) arr1 _ _ _ Hres) as (e1 & _ & -> & _).
    destruct (pool_map_Raise (Z.to_nat p2) arr2 _ _ _ Hres) as (e2 & _ & -> & _).
    done.
Qed.

Lemma iteration_same (params1 params2 : Params) (w1 w2 : oracle) (j : nat)
    (s1 s2 : Environment * list report) :
  1 <= p_processes params1 -> 1 <= p_processes params2 ->
  same_state s1 s2 ->
  same_run (iteration params1 w1 j s1) (iteration params2 w2 j s2).
Proof.
  intros H1 H2 [Henv Hout]. destruct s1 as [e out1], s2 as [e2 out2].
  simpl in Henv, Hout. subst e2. unfold iteration.
  destruct (run_round_schedule_free (p_processes params1) (p_processes params2)
              (arrival w1 j) (arrival w2 j) e H1 H2) as [Hc Hf].
  destruct (run_round (p_processes params1) _ e) as [e1|x1 e1],
           (run_round (p_processes params2) _ e) as [e2|x2 e2];
    simpl in Hc, Hf; try done; subst e2.
  destruct (report_agents e1) as [line|x]; [|done].
  split; [done|]. split; [done|]. simpl. rewrite !fmap_app, Hout. done.
Qed.

Lemma for_range_same {St} (R : St -> St -> Prop)
    (body1 body2 : nat -> St -> outcome St) (n : nat) :
  (forall j s1 s2, R s1 s2 ->
     completed (body1 j s1) = completed (body2 j s2)
     /\ R (final (body1 j s1)) (final (body2 j s2))) ->
  forall (i : nat) (s1 s2 : St),
    R s1 s2 ->
    completed (for_range body1 i n s1) = completed (for_range body2 i n s2)
    /\ R (final (for_range body1 i n s1)) (final (for_range body2 i n s2)).
Proof.
  intros Hbody. induction n as [|n IH]; intros i s1 s2 HR; simpl; [done|].
  destruct (Hbody i s1 s2 HR) as [Hc Hf].
  destruct (body1 i s1) as [t1|x1 t1], (body2 i s2) as [t2|x2 t2];
    simpl in Hc, Hf; try done.
  by apply IH.
Qed.

(** C9 (amended). Two runs of [doit] from the same generator state and the
    same parameters, except possibly the number of processes (at least one in
    both), end the same way, in the same environment, and print reports with
    the same iteration numbers and the same agent values, whatever the clock
    and the order in which workers finish are in each. *)
Theorem deterministic_rounds (params : Params) (rng : list nat)
    (w1 w2 : oracle) (processes2 : Z) :
  1 <= p_processes params ->
  1 <= processes2 ->
  let o1 := doit params rng w1 in
  let o2 := doit (set_processes processes2 params) rng w2 in
  completed o1 = completed o2 /\
  (final o1).1 = (final o2).1 /\
  report_values <$> (final o1).2 = report_values <$> (final o2).2.
Proof.
  intros H1 H2 o1 o2. subst o1 o2. unfold doit.
  change (setup_all (set_processes processes2 params)
            (populate (p_agents (set_processes processes2 params))) rng)
    with (setup_all params (populate (p_agents params)) rng).
  destruct (setup_all params (populate (p_agents params)) rng)
    as [[env1 rng1]|e [env1 rng1]]; [|done].
  unfold run_iterations.
  change (p_iterations (set_processes processes2 params))
    with (p_iterations params).
  apply (for_range_same same_state); [|done].
  intros j s1 s2 Hs. by apply iteration_same.
Qed.

Lemma deterministic_rounds_witness :
  report_values <$>
    (final (doit (mkParams 1 5 2 3 2 (PyFloat 0.25)) [7; 1; 8; 2; 8; 1]%nat
              (mkOracle (fun _ => 0%float) (fun _ => 1%float)
                        (fun _ => [])))).2
  = report_values <$>
      (final (doit (set_processes 7 (mkParams 1 5 2 3 2 (PyFloat 0.25)))
                [7; 1; 8; 2; 8; 1]%nat
                (mkOracle (fun _ => 5%float) (fun _ => 9%float)
                          (fun _ => [1; 0]%nat)))).2.
Proof.
  apply (deterministic_rounds (mkParams 1 5 2 3 2 (PyFloat 0.25))
           [7; 1; 8; 2; 8; 1]%nat
           (mkOracle (fun _ => 0%float) (fun _ => 1%float) (fun _ => []))
           (mkOracle (fun _ => 5%float) (fun _ => 9%float)
                     (fun _ => [1; 0]%nat)) 7); simpl; lia.
Defined.

(** C9 as stated fails: two runs with the same generator state and the same
    parameters print different reports when the clock readings differ, since
    a report carries the elapsed wall-clock time of its round. *)
Lemma report_duration_counterexample :
  (final (doit (mkParams 1 5 2 3 2 (PyFloat 0.25)) [7; 1; 8; 2; 8; 1]%nat
            (mkOracle (fun _ => 0%float) (fun _ => 1%float) (fun _ => [])))).2
  <> (final (doit (mkParams 1 5 2 3 2 (PyFloat 0.25)) [7; 1; 8; 2; 8; 1]%nat
               (mkOracle (fun _ => 0%float) (fun _ => 2%float)
                         (fun _ => [])))).2.
Proof.
  intros H.
  apply (f_equal (fmap (fun r => PrimFloat.eqb (r_seconds r) 1%float))) in H.
  vm_compute in H. discriminate.
Qed.

(** * Further properties of the code *)

(** ** Environment.register and Environment.lookup *)

Lemma lookup_at (env : Environment) (i : Z) (pos : nat) (a : Agent) :
  py_index (length (population env)) i = Ok pos ->
  population env !! pos = Some a ->
  lookup env i = Ok a.
Proof.
  intros Hp Ha. unfold lookup, lookup_pos. rewrite Hp. simpl. by rewrite Ha.
Qed.

(** X1. Round trip of [register] and [lookup], in any environment: the id
    [register] returns resolves to the agent just registered, and so does the
    id -1; every id from 0 up to the old size keeps resolving as before the
    call, while a negative id that resolved before now resolves one place
    further from the end. *)
Theorem register_lookup_round_trip (env : Environment) (agent : Agent)
    (j : Z) :
  let n := Z.of_nat (length (population env)) in
  lookup (register env agent).1 (register env agent).2 = Ok agent /\
  lookup (register env agent).1 (-1) = Ok agent /\
  (0 <= j < n -> lookup (register env agent).1 j = lookup env j) /\
  (- n <= j < 0 -> lookup (register env agent).1 (j - 1) = lookup env j).
Proof.
  intros n. subst n. rewrite register_eq. simpl.
  set (l := population env).
  assert (Hlen : length (l ++ [agent]) = S (length l)).
  { rewrite length_app. simpl. lia. }
  assert (Hlast : (l ++ [agent]) !! length l = Some agent).
  { rewrite lookup_app_r by lia. by rewrite Nat.sub_diag. }
  split; [|split; [|split]].
  - eapply lookup_at; simpl.
    + fold l. rewrite Hlen. apply py_index_nonneg. lia.
    + fold l. by rewrite Nat2Z.id.
  - eapply lookup_at; simpl.
    + fold l. rewrite Hlen. apply py_index_neg. lia.
    + fold l. replace (Z.to_nat (Z.of_nat (S (length l)) + -1)) with (length l)
        by lia. done.
  - intros Hj.
    destruct (lookup_lt_is_Some_2 l (Z.to_nat j)) as [a Ha]; [lia|].
    rewrite (lookup_at env j (Z.to_nat j) a); [|by apply py_index_nonneg|done].
    eapply lookup_at; simpl.
    + fold l. rewrite Hlen. apply py_index_nonneg. lia.
    + fold l. rewrite lookup_app_l by lia. done.
  - intros Hj.
    destruct (lookup_lt_is_Some_2 l (Z.to_nat (Z.of_nat (length l) + j)))
      as [a Ha]; [lia|].
    rewrite (lookup_at env j (Z.to_nat (Z.of_nat (length l) + j)) a);
      [|by apply py_index_neg|done].
    eapply lookup_at; simpl.
    + fold l. rewrite Hlen. apply py_index_neg. lia.
    + fold l.
      replace (Z.to_nat (Z.of_nat (S (length l)) + (j - 1)))
        with (Z.to_nat (Z.of_nat (length l) + j)) by lia.
      rewrite lookup_app_l by lia. done.
Qed.

Lemma register_lookup_round_trip_witness :
  lookup (register scenario_env fresh_agent).1 1 = lookup scenario_env 1 /\
  lookup (register scenario_env fresh_agent).1 (-1 - 1) = lookup scenario_env (-1).
Proof.
  split.
  - apply (register_lookup_round_trip scenario_env fresh_agent 1). simpl. lia.
  - apply (register_lookup_round_trip scenario_env fresh_agent (-1)). simpl. lia.
Defined.

(** ** Agent.__init__ *)

(** X2. Constructing an agent appends one agent with empty neighbors, no
    data, process time 0 and the old population size as id; the agents already
    there and the shared constant are left as they were, [lookup] of the new
    id gives the new agent, and dense ids stay dense. *)
Theorem Agent_init_appends (env : Environment) :
  let n := Z.of_nat (length (population env)) in
  population (Agent_init env)
  = population env ++ [mkAgent [] PyNone PyNone (PyInt 0) (Some n)] /\
  my_special_stuff (Agent_init env) = my_special_stuff env /\
  lookup (Agent_init env) n = Ok (mkAgent [] PyNone PyNone (PyInt 0) (Some n)) /\
  (ids_dense env -> ids_dense (Agent_init env)).
Proof.
  intros n. subst n. rewrite Agent_init_eq. simpl.
  split; [done|]. split; [done|]. split.
  - eapply lookup_at; simpl.
    + rewrite length_app. simpl. apply py_index_nonneg. lia.
    + rewrite Nat2Z.id, lookup_app_r by lia. by rewrite Nat.sub_diag.
  - unfold ids_dense. simpl. intros Hd.
    rewrite length_app, fmap_app, Hd. simpl.
    rewrite Nat.add_1_r, seq_S, fmap_app. done.
Qed.

Lemma Agent_init_appends_witness : ids_dense (Agent_init scenario_env).
Proof.
  apply (Agent_init_appends scenario_env). reflexivity.
Defined.

(** ** Agent.setup: what it leaves on success and on failure *)

Lemma py_list_remove_Raise (x : Z) (l : list Z) (e : exn) :
  py_list_remove x l = Raise e -> e = ValueError /\ x ∉ l.
Proof.
  induction l as [|y l IH]; simpl.
  - intros Heq. split; [congruence|]. apply not_elem_of_nil.
  - destruct (decide (y = x)) as [->|Hne]; [done|].
    destruct (py_list_remove x l); [done|]. simpl. intros Heq.
    destruct IH as [-> Hx]; [done|]. split; [congruence|].
    intros [Heq'|Hin]%elem_of_cons; [by apply Hne|by apply Hx].
Qed.

(** Every way [setup] can go. *)
Lemma setup_cases (self : Agent) (params : Params) (env : Environment)
    (rng : list nat) :
  let n := Z.of_nat (length (population env)) in
  let k := p_neighbors params in
  (p_max params < 0 /\
   setup self params env rng = Raised ValueError (self, rng)) \/
  (0 <= p_max params /\
   exists v rng1,
     Z.abs v <= p_max params /\
     ((id self = None /\
       setup self params env rng
       = Raised AttributeError (setup_assigned v params self, rng1)) \/
      (exists i, id self = Some i /\
         (((i < 0 \/ n <= i) /\
           setup self params env rng
           = Raised ValueError (setup_assigned v params self, rng1)) \/
          (0 <= i < n /\
           exists l', py_range (length (population env)) ≡ₚ i :: l' /\
             (((k < 0 \/ n - 1 < k) /\
               setup self params env rng
               = Raised ValueError (setup_assigned v params self, rng1)) \/
              (0 <= k <= n - 1 /\
               setup self params env rng
               = Done (set_neighbors (draw (Z.to_nat k) l' rng1).1
                                     (setup_assigned v params self),
                       (draw (Z.to_nat k) l' rng1).2)))))))).
Proof.
  intros n k. unfold setup, randint.
  destruct (p_max params <? - p_max params) eqn:Hmax.
  { left. split; [lia|done]. }
  right. split; [lia|].
  pose proof (randbelow_lt (Z.to_nat (p_max params - - p_max params + 1)) rng
                ltac:(lia)) as Hj.
  destruct (randbelow _ rng) as [j rng1]. simpl in Hj.
  exists (- p_max params + Z.of_nat j), rng1. split; [lia|].
  fold (setup_assigned (- p_max params + Z.of_nat j) params self).
  set (self2 := setup_assigned _ params self).
  assert (Hid2 : id self2 = id self) by done.
  unfold get_id. rewrite Hid2.
  destruct (id self) as [i|]; simpl; [|by left].
  right. exists i. split; [done|].
  destruct (py_list_remove i (py_range (length (population env))))
    as [l'|e] eqn:Hrem.
  - pose proof (py_list_remove_Ok _ _ _ Hrem) as Hperm.
    assert (Hi : 0 <= i < n).
    { apply elem_of_py_range. rewrite Hperm. apply elem_of_cons. by left. }
    assert (Hlen : Z.of_nat (length l') = n - 1).
    { apply Permutation_length in Hperm. rewrite py_range_length in Hperm.
      simpl in Hperm. subst n. lia. }
    right. split; [done|]. exists l'. split; [done|].
    unfold sample. fold k.
    destruct ((0 <=? k) && (k <=? Z.of_nat (length l'))) eqn:Hk.
    + apply andb_prop in Hk as [Hk0 Hk1]. right. split; [lia|].
      by destruct (draw (Z.to_nat k) l' rng1).
    + apply andb_false_iff in Hk. left. split; [lia|done].
  - apply py_list_remove_Raise in Hrem as [-> Hnot]. left. split; [|done].
    rewrite elem_of_py_range in Hnot. subst n. lia.
Qed.

(** X3. When [setup] completes, the agent's value is an int between -max and
    max, its process time is the configured one, and its id and next_data are
    untouched; and it completes only for an agent whose id is a registered
    index, with max at least 0 and a neighbor count between 0 and the
    population size minus 1. *)
Theorem setup_completion (self a' : Agent) (params : Params)
    (env : Environment) (rng rng' : list nat) :
  setup self params env rng = Done (a', rng') ->
  let n := Z.of_nat (length (population env)) in
  (exists v, cur_data a' = PyInt v /\ - p_max params <= v <= p_max params) /\
  process_time a' = p_process_time params /\
  next_data a' = next_data self /\
  id a' = id self /\
  (exists i, id self = Some i /\ 0 <= i < n) /\
  0 <= p_max params /\
  0 <= p_neighbors params <= n - 1.
Proof.
  intros H n. subst n.
  destruct (setup_cases self params env rng)
    as [[_ Hs]|(Hmax & v & rng1 & Hv &
                [[_ Hs]|(i & Hid & [[_ Hs]|(Hi & l' & _ & [[_ Hs]|[Hk Hs]])])])];
    rewrite Hs in H; try done.
  injection H as <- <-.
  split; [exists v; split; [done|lia]|]. repeat split; try done; try lia.
  by exists i.
Qed.

Lemma setup_completion_witness :
  0 <= p_neighbors (mkParams 1 5 2 3 2 (PyFloat 0.25))
    <= Z.of_nat (length (population (populate 3))) - 1.
Proof.
  destruct (setup (set_id 0 fresh_agent) (mkParams 1 5 2 3 2 (PyFloat 0.25))
              (populate 3) [7; 1]%nat) as [[a' rng']|e st] eqn:Hs;
    [|vm_compute in Hs; discriminate].
  apply (setup_completion _ _ _ _ _ _ Hs).
Defined.

(** X4. [setup] is not atomic. When it raises, the neighbors, id and
    next_data are those the agent had; with a negative max it raises
    ValueError before anything is assigned and before any draw; otherwise the
    value and the process time are already assigned when it raises, which it
    does with AttributeError when the id is not bound, and with ValueError
    when the id is not an index of the population or the neighbor count is
    negative or exceeds the population size minus 1. *)
Theorem setup_failure_state (self a' : Agent) (params : Params)
    (env : Environment) (rng rng' : list nat) (e : exn) :
  setup self params env rng = Raised e (a', rng') ->
  let n := Z.of_nat (length (population env)) in
  let k := p_neighbors params in
  neighbors a' = neighbors self /\
  id a' = id self /\
  next_data a' = next_data self /\
  ((p_max params < 0 /\ e = ValueError /\ a' = self /\ rng' = rng) \/
   (0 <= p_max params /\
    process_time a' = p_process_time params /\
    (exists v, cur_data a' = PyInt v /\ - p_max params <= v <= p_max params) /\
    ((id self = None /\ e = AttributeError) \/
     (exists i, id self = Some i /\ e = ValueError /\
                (i < 0 \/ n <= i \/ k < 0 \/ n - 1 < k))))).
Proof.
  intros H n k. subst n k.
  destruct (setup_cases self params env rng)
    as [[Hmax Hs]|(Hmax & v & rng1 & Hv &
                [[Hid Hs]|(i & Hid & [[Hi Hs]|(Hi & l' & _ & [[Hk Hs]|[_ Hs]])])])];
    rewrite Hs in H; try done; injection H as <- <- <-.
  - split; [done|]. split; [done|]. split; [done|]. by left.
  - split; [done|]. split; [done|]. split; [done|]. right.
    split; [done|]. split; [done|].
    split; [exists v; split; [done|lia]|]. by left.
  - split; [done|]. split; [done|]. split; [done|]. right.
    split; [done|]. split; [done|].
    split; [exists v; split; [done|lia]|]. right. exists i.
    split; [done|]. split; [done|]. lia.
  - split; [done|]. split; [done|]. split; [done|]. right.
    split; [done|]. split; [done|].
    split; [exists v; split; [done|lia]|]. right. exists i.
    split; [done|]. split; [done|]. lia.
Qed.

Lemma setup_failure_state_witness :
  exists a' rng',
    setup (set_id 0 fresh_agent) (mkParams 3 5 2 3 2 (PyFloat 0.25))
          (populate 3) [7; 1]%nat = Raised ValueError (a', rng')
    /\ neighbors a' = [] /\ cur_data a' = PyInt 2.
Proof.
  destruct (setup (set_id 0 fresh_agent) (mkParams 3 5 2 3 2 (PyFloat 0.25))
              (populate 3) [7; 1]%nat) as [st|e [a' rng']] eqn:Hs;
    [vm_compute in Hs; discriminate|].
  pose proof (setup_failure_state _ _ _ _ _ _ _ Hs) as (Hn & _).
  vm_compute in Hs. injection Hs as <- <- <-.
  exists (mkAgent [] (PyInt 2) PyNone (PyFloat 0.25) (Some 0)), [1%nat].
  split; [reflexivity|]. split; [exact Hn|reflexivity].
Defined.

(** X5. The two ends of the range of neighbor counts [setup] accepts: with a
    count of 0 the agent gets no neighbor, and with a count of the population
    size minus 1 every other agent of the population is its neighbor. *)
Theorem setup_boundary_counts (self a' : Agent) (params : Params)
    (env : Environment) (rng rng' : list nat) (i : Z) :
  setup self params env rng = Done (a', rng') ->
  id self = Some i ->
  let n := Z.of_nat (length (population env)) in
  (p_neighbors params = 0 -> neighbors a' = []) /\
  (p_neighbors params = n - 1 ->
   forall x, 0 <= x < n -> x <> i -> x ∈ neighbors a').
Proof.
  intros H Hid n. subst n.
  destruct (setup_cases self params env rng)
    as [[_ Hs]|(Hmax & v & rng1 & Hv &
                [[_ Hs]|(i' & Hid' & [[_ Hs]|(Hi & l' & Hperm & [[_ Hs]|[Hk Hs]])])])];
    rewrite Hs in H; try done.
  injection H as <- <-. simpl. rewrite Hid in Hid'. injection Hid' as <-.
  split.
  - intros ->. done.
  - intros Hk' x Hx Hne.
    assert (Hlen : Z.to_nat (p_neighbors params) = length l').
    { apply Permutation_length in Hperm. rewrite py_range_length in Hperm.
      simpl in Hperm. lia. }
    rewrite Hlen, draw_all_Permutation.
    apply (elem_of_py_range (length (population env))) in Hx.
    rewrite Hperm in Hx. apply elem_of_cons in Hx as [->|Hx]; done.
Qed.

Lemma setup_boundary_counts_witness :
  1 ∈ neighbors
        (final (setup (set_id 0 fresh_agent)
                      (mkParams 2 5 2 3 2 (PyFloat 0.25))
                      (populate 3) [7; 1; 0]%nat)).1 /\
  2 ∈ neighbors
        (final (setup (set_id 0 fresh_agent)
                      (mkParams 2 5 2 3 2 (PyFloat 0.25))
                      (populate 3) [7; 1; 0]%nat)).1.
Proof.
  destruct (setup (set_id 0 fresh_agent) (mkParams 2 5 2 3 2 (PyFloat 0.25))
              (populate 3) [7; 1; 0]%nat) as [[a' rng']|e st] eqn:Hs;
    [|vm_compute in Hs; discriminate].
  pose proof (setup_boundary_counts _ _ _ _ _ _ 0 Hs eq_refl) as [_ H].
  split; apply H; simpl; (reflexivity || lia).
Defined.

(** ** Agent.calculate_update and Agent.do_update *)

(** X6. When [calculate_update] returns, the value is a float (never [None],
    never an int), it is stored in [next_data] of the agent it ran on, and
    that agent's other attributes are untouched; committing afterwards with
    [do_update()] on that agent, or with [do_update(value)] on the original
    one, stores the same value. *)
Theorem calculate_update_result (self a' : Agent) (env : Environment)
    (v : pyval) :
  calculate_update self env = Ok (a', v) ->
  (exists f, v = PyFloat f) /\
  next_data a' = v /\
  cur_data a' = cur_data self /\
  id a' = id self /\
  neighbors a' = neighbors self /\
  process_time a' = process_time self /\
  cur_data (do_update a' None) = v /\
  cur_data (do_update self (Some v)) = v.
Proof.
  intros H. rewrite calculate_update_next_value in H.
  apply fmap_Ok in H as (v' & Hnv & [= -> ->]).
  apply next_value_float in Hnv as [f ->].
  split; [by eexists|]. repeat split.
Qed.

Lemma calculate_update_result_witness :
  exists a',
    calculate_update (mkAgent [1] (PyInt 10) PyNone (PyInt 0) (Some 0))
                     scenario_env = Ok (a', PyFloat 30)
    /\ cur_data (do_update a' None) = PyFloat 30.
Proof.
  destruct (calculate_update (mkAgent [1] (PyInt 10) PyNone (PyInt 0) (Some 0))
                             scenario_env) as [[a' v]|e] eqn:Hc;
    [|vm_compute in Hc; discriminate].
  pose proof (calculate_update_result _ _ _ _ Hc) as (_ & _ & _ & _ & _ & _ & Hd & _).
  assert (Hv : v = PyFloat 30).
  { vm_compute in Hc. by injection Hc as _ <-. }
  exists a'. rewrite <- Hv. split; [reflexivity|exact Hd].
Defined.

Lemma run_round_all_raise (processes : Z) (arr : list nat)
    (env : Environment) (e : exn) :
  1 <= processes ->
  population env <> [] ->
  (forall a, a ∈ population env -> update env a = Raise e) ->
  run_round processes arr env = Raised e env.
Proof.
  intros Hp Hne Hall. unfold run_round, initializer.
  destruct (processes <? 1) eqn:Hlt; [lia|].
  destruct (population env) as [|a l] eqn:Hpop; [done|].
  assert (Hm : exists e', map_result (update env) (a :: l) = Raise e').
  { simpl. rewrite (Hall a); [by eexists|]. apply elem_of_cons. by left. }
  destruct Hm as [e' Hm].
  destruct (pool_map_Raise (Z.to_nat processes) arr _ _ _ Hm)
    as (e2 & x & -> & Hx & Hux).
  rewrite (Hall x Hx) in Hux. by injection Hux as <-.
Qed.

(** X7. Division by the shared constant is not guarded: when the constant is
    the int 0 or a float zero, every agent whose neighbors and values are in
    order and whose delay is accepted raises ZeroDivisionError in
    [calculate_update], and a round over a non-empty population of such
    agents raises ZeroDivisionError with the environment unchanged. *)
Theorem zero_special_stuff (b : Z) (processes : Z) (arr : list nat)
    (env : Environment) :
  0 <= b ->
  ids_dense env ->
  zero_divisor (my_special_stuff env) ->
  Forall (agent_ready b (length (population env))) (population env) ->
  (forall a, a ∈ population env ->
             calculate_update a env = Raise ZeroDivisionError) /\
  (1 <= processes -> population env <> [] ->
   run_round processes arr env = Raised ZeroDivisionError env).
Proof.
  intros Hb Hd Hz Hag.
  assert (Hsnap : Forall (value_ok b) (snapshot env)).
  { unfold snapshot. apply Forall_fmap. eapply Forall_impl; [exact Hag|].
    by intros a (_ & Hv & _). }
  assert (Hcalc : forall a, a ∈ population env ->
                    calculate_update a env = Raise ZeroDivisionError).
  { intros a Ha.
    apply (proj1 (Forall_forall _ _) Hag) in Ha as (Hns & Hv & Hpt & Hlim).
    rewrite calculate_update_next_value. unfold next_value.
    unfold delay_ok in Hpt. rewrite Hpt. simpl.
    destruct (sum_snapshot_ready (snapshot env) b (neighbors a) Hb Hsnap)
      with (acc := PyInt 0) (m := 0) as (s & -> & Hs);
      [by rewrite snapshot_length|done|simpl; lia|lia|]. simpl.
    destruct (py_add_ready _ b s (cur_data a) Hs Hv) as (t & -> & Ht);
      [lia|lia|done|]. simpl.
    destruct t as [|ta|tf], (my_special_stuff env) as [|z|g]; simpl in *;
      try done.
    - subst z. done.
    - destruct (float_of_int_small ta) as [f ->]; [lia|]. simpl.
      unfold float_truediv. by rewrite Hz.
    - subst z. done.
    - unfold float_truediv. by rewrite Hz. }
  split; [done|]. intros Hp Hne. apply run_round_all_raise; [done|done|].
  intros a Ha. pose proof (Hcalc a Ha) as Hc.
  apply list_elem_of_lookup in Ha as [i Hi].
  unfold update, get_id. rewrite (ids_dense_lookup env i a Hd Hi). simpl.
  by rewrite Hc.
Qed.

Lemma zero_special_stuff_witness :
  run_round 15 [2; 0; 1]%nat
    (mkEnvironment (population scenario_env) (PyInt 0))
  = Raised ZeroDivisionError
      (mkEnvironment (population scenario_env) (PyInt 0)).
Proof.
  apply (zero_special_stuff 30 15 [2; 0; 1]%nat
           (mkEnvironment (population scenario_env) (PyInt 0))).
  - lia.
  - reflexivity.
  - reflexivity.
  - repeat constructor; simpl; try lia; try discriminate;
      vm_compute; reflexivity.
  - lia.
  - discriminate.
Defined.

(** X8. A round run on agents that were constructed but not set up raises
    TypeError, since their value is still [None], and leaves the environment
    as it was; the round loop then ends at its first iteration with nothing
    printed. *)
Theorem round_before_setup (params : Params) (w : oracle) (n : Z)
    (arr : list nat) :
  0 < n ->
  1 <= p_processes params ->
  run_round (p_processes params) arr (populate n)
  = Raised TypeError (populate n) /\
  (0 < p_iterations params ->
   run_iterations params w (populate n)
   = Raised TypeError (populate n, [])).
Proof.
  intros Hn Hp.
  assert (Hround : forall arr',
            run_round (p_processes params) arr' (populate n)
            = Raised TypeError (populate n)).
  { intros arr'. apply run_round_all_raise; [done| |].
    - intros Hnil. apply (f_equal length) in Hnil.
      rewrite populate_length in Hnil. simpl in Hnil. lia.
    - intros a Ha. rewrite populate_eq in Ha. simpl in Ha.
      apply list_elem_of_fmap in Ha as (i & -> & _). done. }
  split; [apply Hround|]. intros Hit. unfold run_iterations.
  destruct (Z.to_nat (p_iterations params)) as [|m] eqn:Hm; [lia|].
  simpl. by rewrite Hround.
Qed.

Lemma round_before_setup_witness :
  run_iterations params
    (mkOracle (fun _ => 0%float) (fun _ => 1%float) (fun _ => []))
    (populate 20)
  = Raised TypeError (populate 20, []).
Proof.
  apply (round_before_setup params
           (mkOracle (fun _ => 0%float) (fun _ => 1%float) (fun _ => []))
           20 []); simpl; lia.
Defined.

(** ** The round: how it can fail, and what a failure leaves *)

Lemma commit_Raised (res : list (Z * pyval)) (env env' : Environment)
    (e : exn) :
  commit res env = Raised e env' -> e = IndexError.
Proof.
  revert env. induction res as [|[i data] res IH]; intros env; simpl; [done|].
  unfold lookup_pos.
  destruct (py_index (length (population env)) i) as [pos|e0] eqn:Hp.
  - destruct (population env !! pos); [apply IH|]. by intros [= <- _].
  - apply py_index_Raise in Hp as [-> _]. by intros [= <- _].
Qed.

Lemma run_round_dense (processes : Z) (arr : list nat) (env : Environment)
    (res : list (Z * pyval)) :
  ids_dense env ->
  1 <= processes ->
  map_result (update env) (population env) = Ok res ->
  exists vs, next_values env = Ok vs
             /\ run_round processes arr env = Done (committed vs env).
Proof.
  intros Hd Hp Hres.
  rewrite (update_tagged env (population env) 0) in Hres.
  - apply fmap_Ok in Hres as (vs & Hvs & _). exists vs. split; [done|].
    by apply run_round_Done.
  - intros j a Ha. by apply (ids_dense_lookup env).
Qed.

(** X9. The ways a round can raise. With fewer than one process it raises
    ValueError before anything runs; otherwise either some agent's update
    raised that exception and the environment is unchanged, or every update
    succeeded and the commit loop raised IndexError on an id that does not
    resolve, which cannot happen when ids are dense. *)
Theorem round_failure_causes (processes : Z) (arr : list nat)
    (env env' : Environment) (e : exn) :
  run_round processes arr env = Raised e env' ->
  (processes < 1 /\ e = ValueError /\ env' = env) \/
  (1 <= processes /\ env' = env /\
   exists a, a ∈ population env /\ update env a = Raise e) \/
  (1 <= processes /\ e = IndexError /\
   (forall a, a ∈ population env -> is_Ok (update env a)) /\
   ~ ids_dense env).
Proof.
  intros H. unfold run_round, initializer in H.
  destruct (processes <? 1) eqn:Hlt.
  { left. injection H as <- <-. split; [lia|done]. }
  right.
  destruct (map_result (update env) (population env)) as [res|e0] eqn:Hm.
  - right. rewrite (pool_map_Ok _ _ _ _ _ Hm) in H.
    split; [lia|]. split; [by eapply commit_Raised|]. split.
    + intros a Ha. apply list_elem_of_lookup in Ha as [i Hi].
      destruct (map_result_Ok _ _ _ Hm) as [_ Hlk].
      destruct (Hlk i a Hi) as (y & _ & Hy). by exists y.
    + intros Hd.
      destruct (run_round_dense processes arr env res Hd ltac:(lia) Hm)
        as (vs & _ & Hrun).
      unfold run_round, initializer in Hrun.
      rewrite Hlt, (pool_map_Ok _ _ _ _ _ Hm) in Hrun. congruence.
  - left.
    destruct (pool_map_Raise (Z.to_nat processes) arr _ _ _ Hm)
      as (e2 & x & Hpool & Hx & Hux).
    rewrite Hpool in H. injection H as <- <-.
    split; [lia|]. split; [done|]. by exists x.
Qed.

Lemma round_failure_causes_witness :
  (15 < 1 /\ TypeError = ValueError /\ failing_env = failing_env) \/
  (1 <= 15 /\ failing_env = failing_env /\
   exists a, a ∈ population failing_env
             /\ update failing_env a = Raise TypeError) \/
  (1 <= 15 /\ TypeError = IndexError /\
   (forall a, a ∈ population failing_env -> is_Ok (update failing_env a)) /\
   ~ ids_dense failing_env).
Proof.
  apply (round_failure_causes 15 [2; 0; 1]%nat failing_env failing_env
           TypeError).
  vm_compute. reflexivity.
Defined.

(** X10. With dense ids a round is all or nothing: either it raises and the
    environment is exactly the one before the round, or it completes and
    every agent holds the new value, a float, computed on the round-start
    snapshot. *)
Theorem round_all_or_nothing (processes : Z) (arr : list nat)
    (env : Environment) :
  ids_dense env ->
  (exists e, run_round processes arr env = Raised e env) \/
  (exists vs,
     next_values env = Ok vs /\
     length vs = length (population env) /\
     Forall (fun v => exists f, v = PyFloat f) vs /\
     run_round processes arr env = Done (committed vs env) /\
     snapshot (committed vs env) = vs).
Proof.
  intros Hd. destruct (Z.ltb_spec processes 1) as [Hlt|Hge].
  { left. exists ValueError. unfold run_round.
    by destruct (Z.ltb_spec processes 1); [|lia]. }
  destruct (map_result (update env) (population env)) as [res|e0] eqn:Hm.
  - right. destruct (run_round_dense processes arr env res Hd Hge Hm)
      as (vs & Hvs & Hrun).
    exists vs. destruct (map_result_Ok _ _ _ Hvs) as [Hlen Hlk].
    split; [done|]. split; [done|]. split; [|split; [done|]].
    + apply Forall_lookup. intros i v Hv.
      destruct (lookup_lt_is_Some_2 (population env) i) as [a Ha].
      { rewrite <- Hlen. by eapply lookup_lt_Some. }
      destruct (Hlk i a Ha) as (v' & Hv' & Hnv).
      assert (v' = v) as -> by congruence. by eapply next_value_float.
    + unfold snapshot, committed. simpl. apply list_eq. intros i.
      rewrite list_lookup_fmap, lookup_zip_with.
      destruct (vs !! i) as [v|] eqn:Hv; simpl; [|done].
      destruct (lookup_lt_is_Some_2 (population env) i) as [a Ha].
      { rewrite <- Hlen. by eapply lookup_lt_Some. }
      by rewrite Ha.
  - left. destruct (run_round_Raised processes arr env e0 Hm) as [e' He'].
    by exists e'.
Qed.

Lemma round_all_or_nothing_witness :
  (exists e, run_round 15 [2; 0; 1]%nat failing_env = Raised e failing_env) \/
  (exists vs,
     next_values failing_env = Ok vs /\
     length vs = length (population failing_env) /\
     Forall (fun v => exists f, v = PyFloat f) vs /\
     run_round 15 [2; 0; 1]%nat failing_env = Done (committed vs failing_env) /\
     snapshot (committed vs failing_env) = vs).
Proof.
  apply (round_all_or_nothing 15 [2; 0; 1]%nat failing_env). reflexivity.
Defined.

(** X11. Without dense ids the commit loop is not atomic. When the agents
    before some position have their position as id, the agent at that position
    carries an id that is not an index of the population, and every update
    succeeds, the round raises IndexError with the agents before that position
    committed and that agent and the ones after it left with their round-start
    values. *)
Theorem round_partial_commit (processes : Z) (arr : list nat)
    (env : Environment) (l1 l2 : list Agent) (a : Agent) (j : Z) :
  population env = l1 ++ a :: l2 ->
  (forall k b, l1 !! k = Some b -> id b = Some (Z.of_nat k)) ->
  id a = Some j ->
  j < - Z.of_nat (length (population env))
  \/ Z.of_nat (length (population env)) <= j ->
  1 <= processes ->
  (forall b, b ∈ population env -> is_Ok (update env b)) ->
  exists vs1,
    map_result (next_value (snapshot env) (my_special_stuff env)) l1 = Ok vs1 /\
    run_round processes arr env
    = Raised IndexError
        (set_population (zip_with set_cur_data vs1 l1 ++ a :: l2) env).
Proof.
  intros Hpop Hl1 Hid Hj Hp Hall.
  destruct (map_result_total (update env) (population env) Hall) as [res Hres].
  pose proof Hres as Hres'. rewrite Hpop, map_result_app in Hres'.
  rewrite (update_tagged env l1 0) in Hres' by done.
  destruct (map_result (next_value _ _) l1) as [vs1|] eqn:Hvs1;
    simpl in Hres'; [|done].
  rewrite (update_next_value env a j Hid) in Hres'.
  destruct (next_value _ _ a) as [v|]; simpl in Hres'; [|done].
  destruct (map_result (update env) l2) as [r3|]; simpl in Hres'; [|done].
  injection Hres' as <-.
  exists vs1. split; [done|].
  destruct (map_result_Ok _ _ _ Hvs1) as [Hlen1 _].
  assert (Hfl : Forall (fun v => v <> PyNone) vs1).
  { eapply Forall_impl; [exact (map_result_Ok_elem _ _ _ Hvs1)|].
    intros v' (b & _ & Hb). apply next_value_float in Hb as [f ->]. done. }
  assert (Hle : (length vs1 <= length (population env))%nat).
  { rewrite Hpop, length_app. lia. }
  unfold run_round, initializer.
  destruct (processes <? 1) eqn:Hlt; [lia|].
  rewrite (pool_map_Ok _ _ _ _ _ Hres), commit_app, commit_tagged by done.
  cbn [commit]. unfold lookup_pos. cbn [population set_population].
  assert (Hal : length (apply_values vs1 (population env))
                = length (population env)).
  { unfold apply_values. by rewrite length_imap. }
  rewrite Hal.
  assert (py_index (length (population env)) j = Raise IndexError) as ->.
  { by apply py_index_Raise. }
  do 2 f_equal. rewrite Hpop. unfold apply_values. rewrite imap_app. f_equal.
  - rewrite <- apply_values_all by done. done.
  - apply list_eq. intros i. rewrite list_lookup_imap.
    rewrite lookup_ge_None_2 by lia. by destruct ((a :: l2) !! i).
Qed.

Lemma round_partial_commit_witness :
  exists vs1,
    map_result (next_value [PyInt 10; PyInt 20] (PyInt 1))
               [mkAgent [1] (PyInt 10) PyNone (PyInt 0) (Some 0)] = Ok vs1 /\
    run_round 15 []
      (mkEnvironment [ mkAgent [1] (PyInt 10) PyNone (PyInt 0) (Some 0);
                       mkAgent [0] (PyInt 20) PyNone (PyInt 0) (Some 5) ]
                     (PyInt 1))
    = Raised IndexError
        (mkEnvironment
           (zip_with set_cur_data vs1
              [mkAgent [1] (PyInt 10) PyNone (PyInt 0) (Some 0)]
            ++ [mkAgent [0] (PyInt 20) PyNone (PyInt 0) (Some 5)])
           (PyInt 1)).
Proof.
  apply (round_partial_commit 15 []
           (mkEnvironment [ mkAgent [1] (PyInt 10) PyNone (PyInt 0) (Some 0);
                            mkAgent [0] (PyInt 20) PyNone (PyInt 0) (Some 5) ]
                          (PyInt 1))
           [mkAgent [1] (PyInt 10) PyNone (PyInt 0) (Some 0)] []
           (mkAgent [0] (PyInt 20) PyNone (PyInt 0) (Some 5)) 5).
  - reflexivity.
  - intros [|k] b Hb; [|done]. by injection Hb as <-.
  - reflexivity.
  - simpl. lia.
  - lia.
  - intros b Hb. simpl in Hb.
    repeat (apply elem_of_cons in Hb as [->|Hb]);
      [eexists; vm_compute; reflexivity ..|].
    by apply elem_of_nil in Hb.
Defined.

(** ** The reports *)

Lemma report_agents_Ok (env : Environment) (line : list (Z * pyval)) :
  report_agents env = Ok line ->
  (fun p => Some p.1) <$> line = id <$> population env /\
  snd <$> line = cur_data <$> population env.
Proof.
  unfold report_agents. generalize (population env). intros l. revert line.
  induction l as [|a l IH]; intros line; cbn [map_result].
  - by intros [= <-].
  - destruct (id a) as [i|] eqn:Hid.
    + assert (get_id a = Ok i) as -> by (unfold get_id; by rewrite Hid).
      cbn [mbind result_bind].
      destruct (map_result _ l) as [line'|]; cbn [mbind result_bind]; [|done].
      intros [= <-]. destruct (IH line' eq_refl) as [H1 H2].
      rewrite !fmap_cons, H1, H2, Hid. done.
    + assert (get_id a = Raise AttributeError) as ->
        by (unfold get_id; by rewrite Hid).
      done.
Qed.

(** X12. An iteration of the round loop prints its report only after the
    commit: when the round or the printing raises, nothing is added to the
    output; when the iteration completes, exactly one report is added, with
    the iteration number, the difference of the two clock readings, and one
    entry per agent of the committed environment, in population order, holding
    the agent's id and the value just committed. *)
Theorem iteration_report (params : Params) (w : oracle) (i : nat)
    (env : Environment) (out : list report) :
  match iteration params w i (env, out) with
  | Raised _ (_, out') => out' = out
  | Done (env', out') =>
      run_round (p_processes params) (arrival w i) env = Done env' /\
      exists r,
        out' = out ++ [r] /\
        r_iteration r = Z.of_nat i /\
        r_seconds r = PrimFloat.sub (time_end w i) (time_start w i) /\
        (fun p => Some p.1) <$> r_agents r = id <$> population env' /\
        snd <$> r_agents r = cur_data <$> population env' /\
        length (r_agents r) = length (population env)
  end.
Proof.
  unfold iteration.
  pose proof (run_round_fixed (p_processes params) (arrival w i) env) as [Hf _].
  apply (f_equal length) in Hf. rewrite !length_fmap in Hf.
  destruct (run_round _ _ env) as [env'|e env']; simpl in Hf; [|done].
  destruct (report_agents env') as [line|e] eqn:Hline; [|done].
  split; [done|]. eexists. split; [done|]. simpl.
  destruct (report_agents_Ok env' line Hline) as [H1 H2].
  split; [done|]. split; [done|]. split; [done|]. split; [done|].
  apply (f_equal length) in H2. rewrite !length_fmap in H2. lia.
Qed.

Lemma iteration_appends (params : Params) (w : oracle) (i : nat)
    (env : Environment) (out : list report) :
  match iteration params w i (env, out) with
  | Raised _ (_, out') => out' = out
  | Done (_, out') => exists r, out' = out ++ [r] /\ r_iteration r = Z.of_nat i
  end.
Proof.
  unfold iteration.
  destruct (run_round _ _ env) as [env'|e env']; [|done].
  destruct (report_agents env') as [line|e]; [|done]. by eexists.
Qed.

Lemma for_range_numbering (params : Params) (w : oracle) (n : nat) :
  forall (i : nat) (st : Environment * list report),
    r_iteration <$> st.2 = Z.of_nat <$> seq 0 i ->
    let o := for_range (iteration params w) i n st in
    exists m : nat,
      r_iteration <$> (final o).2 = Z.of_nat <$> seq 0 (i + m) /\
      (completed o = true -> m = n) /\
      (completed o = false -> (m < n)%nat).
Proof.
  induction n as [|n IH]; intros i [env out] Hst; cbn [for_range].
  - exists 0%nat. rewrite Nat.add_0_r. done.
  - pose proof (iteration_appends params w i env out) as Hit.
    destruct (iteration params w i (env, out)) as [[env' out']|e [env' out']].
    + destruct Hit as (r & -> & Hr).
      destruct (IH (S i) (env', out ++ [r])) as (m & Hm & Hc & Hnc).
      { cbn [snd] in *. rewrite fmap_app, Hst, seq_S, fmap_app.
        cbn [fmap list_fmap]. by rewrite Hr. }
      exists (S m). replace (i + S m)%nat with (S i + m)%nat by lia.
      split; [done|]. split; [intros Hco; rewrite (Hc Hco); done|].
      intros Hco. specialize (Hnc Hco). lia.
    + subst out'. exists 0%nat. cbn [final completed snd] in *.
      rewrite Nat.add_0_r. split; [done|]. split; [done|]. lia.
Qed.

(** X13. Whatever the environment, the reports the round loop has printed
    when it ends are numbered 0, 1, 2, ... without a gap; a loop that ends on
    an exception has printed fewer reports than the iteration count, and one
    that completes has printed that many. *)
Theorem reports_numbered (params : Params) (w : oracle) (env : Environment) :
  let o := run_iterations params w env in
  let N := Z.to_nat (p_iterations params) in
  r_iteration <$> (final o).2 = Z.of_nat <$> seq 0 (length (final o).2) /\
  (completed o = true -> length (final o).2 = N) /\
  (completed o = false -> (length (final o).2 < N)%nat).
Proof.
  intros o N. subst o N. unfold run_iterations.
  destruct (for_range_numbering params w (Z.to_nat (p_iterations params)) 0
              (env, []) eq_refl) as (m & Hm & Hc & Hnc).
  simpl in Hm.
  assert (Hlen : length (final (for_range (iteration params w) 0
                    (Z.to_nat (p_iterations params)) (env, []))).2 = m).
  { apply (f_equal length) in Hm. by rewrite !length_fmap, length_seq in Hm. }
  rewrite Hlen. split; [done|]. split; [exact Hc|exact Hnc].
Qed.

Lemma reports_numbered_witness :
  (length (final (run_iterations params
                    (mkOracle (fun _ => 0%float) (fun _ => 1%float)
                              (fun _ => []))
                    (populate 20))).2 < 30)%nat.
Proof.
  apply (reports_numbered params
           (mkOracle (fun _ => 0%float) (fun _ => 1%float) (fun _ => []))
           (populate 20)).
  vm_compute. reflexivity.
Defined.

(** ** [doit] as a whole *)

Lemma setup_kept (self : Agent) (params : Params) (env : Environment)
    (rng : list nat) :
  id (final (setup self params env rng)).1 = id self /\
  next_data (final (setup self params env rng)).1 = next_data self.
Proof.
  destruct (setup_cases self params env rng)
    as [[_ Hs]|(_ & v & rng1 & _ &
                [[_ Hs]|(i & _ & [[_ Hs]|(_ & l' & _ & [[_ Hs]|[_ Hs]])])])];
    by rewrite Hs.
Qed.

Lemma setup_one_kept (params : Params) (j : nat)
    (st : Environment * list nat) :
  (fun a => (id a, next_data a))
    <$> population (final (setup_one params j st)).1
  = (fun a => (id a, next_data a)) <$> population st.1 /\
  my_special_stuff (final (setup_one params j st)).1 = my_special_stuff st.1.
Proof.
  destruct st as [env rng]. unfold setup_one.
  destruct (population env !! j) as [a|] eqn:Ha; [|done].
  destruct (setup_kept a params env rng) as [H1 H2].
  assert (Hgoal : forall a',
            id a' = id a -> next_data a' = next_data a ->
            (fun a => (id a, next_data a))
              <$> alter (fun _ => a') j (population env)
            = (fun a => (id a, next_data a)) <$> population env).
  { intros a' Hi Hn. apply list_eq. intros i. rewrite !list_lookup_fmap.
    destruct (decide (j = i)) as [->|Hne].
    - rewrite list_lookup_alter_eq, Ha. simpl. by rewrite Hi, Hn.
    - by rewrite list_lookup_alter_ne. }
  destruct (setup a params env rng) as [[a' rng']|e [a' rng']];
    simpl in *; split; try done; by apply Hgoal.
Qed.

Lemma setup_all_kept (params : Params) (env : Environment) (rng : list nat) :
  (fun a => (id a, next_data a))
    <$> population (final (setup_all params env rng)).1
  = (fun a => (id a, next_data a)) <$> population env /\
  my_special_stuff (final (setup_all params env rng)).1 = my_special_stuff env.
Proof.
  unfold setup_all.
  apply (for_range_final (setup_one params)
           (fun st => (fun a => (id a, next_data a)) <$> population st.1
                      = (fun a => (id a, next_data a)) <$> population env
                      /\ my_special_stuff st.1 = my_special_stuff env));
    [|done].
  intros j s [H1 H2]. destruct (setup_one_kept params j s) as [-> ->]. done.
Qed.

(** X14. However [doit] ends, in setup or in a round or normally, the
    environment it leaves has exactly the configured number of agents, with
    ids 0, 1, 2, ... in population order and the shared constant 3, and every
    agent's [next_data] is still [None]: the values workers store in
    [next_data] stay in the workers' copies. *)
Theorem doit_invariants (params : Params) (rng : list nat) (w : oracle) :
  let env := (final (doit params rng w)).1 in
  length (population env) = Z.to_nat (p_agents params) /\
  ids_dense env /\
  my_special_stuff env = PyInt 3 /\
  Forall (fun a => next_data a = PyNone) (population env).
Proof.
  intros env.
  assert (Hkey : (fun a => (id a, next_data a)) <$> population env
                 = (fun i => (Some (Z.of_nat i), PyNone))
                     <$> seq 0 (Z.to_nat (p_agents params))
                 /\ my_special_stuff env = PyInt 3).
  { subst env. unfold doit.
    assert (Hpop : (fun a => (id a, next_data a))
                     <$> population (populate (p_agents params))
                   = (fun i => (Some (Z.of_nat i), PyNone))
                       <$> seq 0 (Z.to_nat (p_agents params))).
    { rewrite populate_eq. simpl. by rewrite <- list_fmap_compose. }
    assert (Hsp0 : my_special_stuff (populate (p_agents params)) = PyInt 3).
    { by rewrite populate_eq. }
    destruct (setup_all_kept params (populate (p_agents params)) rng)
      as [Hk Hs].
    rewrite Hpop in Hk. rewrite Hsp0 in Hs.
    destruct (setup_all params (populate (p_agents params)) rng)
      as [[env1 rng1]|e [env1 rng1]]; cbn [final fst] in Hk, Hs; [|done].
    destruct (run_iterations_fixed params w env1) as [Hf Hsp].
    rewrite Hsp. split; [|done]. rewrite <- Hk.
    apply (f_equal (fmap (fun p : option Z * list Z * pyval * pyval =>
                            (p.1.1.1, p.2)))) in Hf.
    rewrite <- !list_fmap_compose in Hf. exact Hf. }
  destruct Hkey as [Hk Hs].
  assert (Hlen : length (population env) = Z.to_nat (p_agents params)).
  { apply (f_equal length) in Hk. by rewrite !length_fmap, length_seq in Hk. }
  split; [done|]. split; [|split; [done|]].
  - unfold ids_dense. rewrite Hlen.
    apply (f_equal (fmap fst)) in Hk.
    by rewrite <- !list_fmap_compose in Hk.
  - apply Forall_lookup. intros i a Ha.
    apply (f_equal (fun l => snd <$> l !! i)) in Hk.
    rewrite !list_lookup_fmap, Ha in Hk. simpl in Hk.
    destruct (seq 0 (Z.to_nat (p_agents params)) !! i); simpl in Hk; [|done].
    by injection Hk.
Qed.

Lemma round_step_fixed (env : Environment) :
  fixed_part <$> population (round_step env) = fixed_part <$> population env.
Proof.
  unfold round_step. destruct (next_values env) as [vs|] eqn:Hvs; [|done].
  destruct (map_result_Ok _ _ _ Hvs) as [Hlen _].
  unfold committed. simpl. apply list_eq. intros i.
  rewrite !list_lookup_fmap, lookup_zip_with.
  destruct (population env !! i) as [a|] eqn:Ha; simpl.
  - destruct (lookup_lt_is_Some_2 vs i) as [v ->]; [|done].
    rewrite Hlen. by eapply lookup_lt_Some.
  - by destruct (vs !! i).
Qed.

Lemma round_steps_fixed (n : nat) (env : Environment) :
  fixed_part <$> population (Nat.iter n round_step env)
  = fixed_part <$> population env.
Proof.
  induction n as [|n IH]; [done|].
  rewrite Nat.iter_succ, round_step_fixed. exact IH.
Qed.

Lemma neighbors_ok_fixed (size : nat) (count : Z) (l1 l2 : list Agent) :
  fixed_part <$> l1 = fixed_part <$> l2 ->
  Forall (neighbors_ok size count) l2 ->
  Forall (neighbors_ok size count) l1.
Proof.
  intros Hf H2. apply Forall_lookup. intros i a Ha.
  apply (f_equal (fun l => l !! i)) in Hf.
  rewrite !list_lookup_fmap, Ha in Hf.
  destruct (l2 !! i) as [b|] eqn:Hb; [|done].
  simpl in Hf. injection Hf as Hid Hn _ _.
  pose proof (proj1 (Forall_lookup _ _) H2 i b Hb) as Hok.
  unfold neighbors_ok in *. by rewrite Hid, Hn.
Qed.

(** X15. With parameters that meet the precondition of [setup] (max at least
    0, a neighbor count between 0 and the number of agents minus 1 when there
    are agents), a process time that is not positive or is a duration
    [time.sleep] accepts, values whose sums convert to a float, and at least
    one process, [doit] completes for every state of
    the random generator, every clock and every order of completion of the
    workers: it prints one report per iteration, numbered from 0, each with
    one entry per agent, and leaves the configured number of agents, whose
    neighbor lists still satisfy what setup established. *)
Theorem doit_completes (params : Params) (rng : list nat) (w : oracle) :
  0 <= p_max params ->
  (0 < p_agents params -> 0 <= p_neighbors params <= p_agents params - 1) ->
  delay_ok (p_process_time params) ->
  (p_neighbors params + 1) * p_max params < float_limit ->
  1 <= p_processes params ->
  let N := Z.to_nat (p_iterations params) in
  let n := Z.to_nat (p_agents params) in
  exists env' out,
    doit params rng w = Done (env', out) /\
    length out = N /\
    r_iteration <$> out = Z.of_nat <$> seq 0 N /\
    Forall (fun r => length (r_agents r) = n) out /\
    length (population env') = n /\
    Forall (neighbors_ok n (p_neighbors params)) (population env').
Proof.
  intros Hmax Hk Hpt Hlim Hp N n. subst N n.
  destruct (setup_all_ready params rng Hmax Hk Hpt Hlim)
    as (env1 & rng1 & Hsetup & Hr).
  destruct (setup_all_Done _ _ _ _ _ Hsetup) as (Hids & _ & Hpost).
  assert (Hlen1 : length (population env1) = Z.to_nat (p_agents params)).
  { apply (f_equal length) in Hids.
    by rewrite !length_fmap, populate_length in Hids. }
  rewrite populate_length in Hpost.
  assert (Hlenk : forall k,
            length (population (Nat.iter k round_step env1))
            = Z.to_nat (p_agents params)).
  { intros k. pose proof (round_steps_fixed k env1) as Hf.
    apply (f_equal length) in Hf. rewrite !length_fmap in Hf. lia. }
  unfold doit. rewrite Hsetup.
  rewrite (run_iterations_ready _ params w env1 Hr Hp).
  eexists _, _. split; [done|].
  split; [by rewrite length_fmap, length_seq|].
  split; [by rewrite <- list_fmap_compose|].
  split; [|split; [apply Hlenk|]].
  - apply Forall_fmap, Forall_forall. intros i _. simpl.
    rewrite length_imap. apply (Hlenk (S i)).
  - eapply neighbors_ok_fixed; [apply round_steps_fixed|].
    eapply Forall_impl; [exact Hpost|]. by intros a [Hn _].
Qed.

Lemma doit_completes_witness :
  exists env' out,
    doit params (seq 0 100)
         (mkOracle (fun _ => 0%float) (fun _ => 1%float) (fun _ => []))
    = Done (env', out) /\
    length out = 30%nat /\
    r_iteration <$> out = Z.of_nat <$> seq 0 30 /\
    Forall (fun r => length (r_agents r) = 20%nat) out /\
    length (population env') = 20%nat /\
    Forall (neighbors_ok 20 3) (population env').
Proof.
  apply (doit_completes params (seq 0 100)
           (mkOracle (fun _ => 0%float) (fun _ => 1%float) (fun _ => [])));
    simpl; try lia; try done.
Defined.

Lemma round_steps_empty (n : nat) :
  Nat.iter n round_step Environment_init = Environment_init.
Proof.
  induction n as [|n IH]; [done|]. rewrite Nat.iter_succ, IH. reflexivity.
Qed.

(** X16. With no agents (a count of 0 or less) the setup loop has nothing to
    do, whatever the other setup parameters are, and each round maps over an
    empty population: with at least one process [doit] completes and prints
    one report per iteration, each with an empty list of agents; with fewer
    than one process and at least one iteration it raises ValueError at the
    first round. *)
Theorem doit_no_agents (params : Params) (rng : list nat) (w : oracle) :
  p_agents params <= 0 ->
  (1 <= p_processes params ->
   doit params rng w
   = Done (Environment_init,
           (fun i => mkReport (Z.of_nat i)
                       (PrimFloat.sub (time_end w i) (time_start w i)) [])
             <$> seq 0 (Z.to_nat (p_iterations params)))) /\
  (p_processes params < 1 -> 0 < p_iterations params ->
   doit params rng w = Raised ValueError (Environment_init, [])).
Proof.
  intros Hn. unfold doit, populate.
  replace (Z.to_nat (p_agents params)) with 0%nat by lia.
  change (Nat.iter 0 Agent_init Environment_init) with Environment_init.
  unfold setup_all.
  change (length (population Environment_init)) with 0%nat.
  cbn [for_range]. split.
  - intros Hp.
    rewrite (run_iterations_ready 0 params w Environment_init); [|
      split; [lia|]; split; [reflexivity|]; split;
        [split; [lia|]; eexists; split; vm_compute; reflexivity|constructor]
      |done].
    rewrite round_steps_empty. f_equal. f_equal. apply list_fmap_ext.
    intros _ i _. unfold expected_report. by rewrite round_steps_empty.
  - intros Hp Hit. unfold run_iterations.
    destruct (Z.to_nat (p_iterations params)) as [|m] eqn:Hm; [lia|].
    cbn [for_range]. unfold iteration, run_round.
    by destruct (Z.ltb_spec (p_processes params) 1); [|lia].
Qed.

Lemma doit_no_agents_witness :
  doit (mkParams 3 50 2 0 15 (PyFloat 0.25)) [7; 1]%nat
       (mkOracle (fun _ => 0%float) (fun _ => 1%float) (fun _ => []))
  = Done (Environment_init,
          [mkReport 0 1%float []; mkReport 1 1%float []]).
Proof.
  apply (doit_no_agents (mkParams 3 50 2 0 15 (PyFloat 0.25)) [7; 1]%nat
           (mkOracle (fun _ => 0%float) (fun _ => 1%float) (fun _ => [])));
    simpl; lia.
Defined.

Lemma setup_invalid (self : Agent) (params : Params) (env : Environment)
    (rng : list nat) (i : Z) :
  id self = Some i ->
  0 <= i < Z.of_nat (length (population env)) ->
  p_max params < 0 \/ p_neighbors params < 0
  \/ Z.of_nat (length (population env)) - 1 < p_neighbors params ->
  exists a' rng',
    setup self params env rng = Raised ValueError (a', rng') /\
    neighbors a' = neighbors self.
Proof.
  intros Hid Hi Hbad.
  destruct (setup_cases self params env rng)
    as [[Hmax Hs]|(Hmax & v & rng1 & Hv &
                [[Hid' Hs]|(i' & Hid' & [[Hi' Hs]|(_ & l' & _ & [[_ Hs]|[Hk Hs]])])])];
    rewrite Hs.
  - by eexists _, _.
  - congruence.
  - rewrite Hid in Hid'. injection Hid' as <-. lia.
  - by eexists _, _.
  - lia.
Qed.

(** X17. With at least one agent and parameters that break the precondition
    of [setup] (a negative max, a negative neighbor count, or a neighbor count
    above the number of agents minus 1), [doit] raises ValueError while
    setting up the first agent: no round runs, nothing is printed, and every
    agent is left without neighbors. *)
Theorem doit_invalid_parameters (params : Params) (rng : list nat)
    (w : oracle) :
  0 < p_agents params ->
  p_max params < 0 \/ p_neighbors params < 0
  \/ p_agents params - 1 < p_neighbors params ->
  exists env',
    doit params rng w = Raised ValueError (env', []) /\
    length (population env') = Z.to_nat (p_agents params) /\
    Forall (fun a => neighbors a = []) (population env').
Proof.
  intros Hn Hbad. unfold doit.
  set (env := populate (p_agents params)).
  assert (Hlen : length (population env) = Z.to_nat (p_agents params))
    by apply populate_length.
  assert (Hall : Forall (fun a => neighbors a = []) (population env)).
  { unfold env. rewrite populate_eq. simpl. apply Forall_fmap, Forall_forall.
    by intros i _. }
  assert (H0 : population env !! 0%nat = Some (set_id 0 fresh_agent)).
  { unfold env. rewrite populate_eq. simpl.
    rewrite list_lookup_fmap, lookup_seq_lt by lia. done. }
  destruct (setup_invalid (set_id 0 fresh_agent) params env rng 0)
    as (a' & rng' & Hs & Hnb); [done|lia|lia|].
  unfold setup_all.
  destruct (length (population env)) as [|m] eqn:Hm; [lia|].
  cbn [for_range]. unfold setup_one. rewrite H0, Hs.
  eexists. split; [done|]. simpl. split.
  - rewrite length_alter. lia.
  - apply Forall_lookup. intros i a Ha.
    destruct (decide (0%nat = i)) as [<-|Hne].
    + rewrite list_lookup_alter_eq, H0 in Ha. simpl in Ha. by injection Ha as <-.
    + rewrite list_lookup_alter_ne in Ha by done.
      by apply (proj1 (Forall_lookup _ _) Hall i a).
Qed.

Lemma doit_invalid_parameters_witness :
  exists env',
    doit (mkParams 3 50 30 3 15 (PyFloat 0.25)) [7; 1]%nat
         (mkOracle (fun _ => 0%float) (fun _ => 1%float) (fun _ => []))
    = Raised ValueError (env', []) /\
    length (population env') = 3%nat /\
    Forall (fun a => neighbors a = []) (population env').
Proof.
  apply (doit_invalid_parameters (mkParams 3 50 30 3 15 (PyFloat 0.25))
           [7; 1]%nat
           (mkOracle (fun _ => 0%float) (fun _ => 1%float) (fun _ => [])));
    simpl; lia.
Defined.

(** ** The artificial delay *)

Lemma same_but_delays_length (env1 env2 : Environment) :
  same_but_delays env1 env2 ->
  length (population env1) = length (population env2).
Proof. intros [_ H]. by eapply Forall2_length. Qed.

Lemma same_but_delays_snapshot (env1 env2 : Environment) :
  same_but_delays env1 env2 -> snapshot env1 = snapshot env2.
Proof.
  intros [_ H]. unfold snapshot.
  induction H as [|a1 a2 l1 l2 Ha _ IH]; [done|].
  rewrite !fmap_cons, IH. destruct Ha as (_ & -> & _). done.
Qed.

Lemma next_value_delay (snap : list pyval) (special : pyval)
    (a1 a2 : Agent) :
  same_but_delay a1 a2 ->
  next_value snap special a1 = next_value snap special a2.
Proof.
  intros (Hn & Hc & _ & _ & Hp1 & Hp2). unfold next_value.
  unfold delay_ok in Hp1, Hp2. by rewrite Hn, Hc, Hp1, Hp2.
Qed.

Lemma update_delay (env1 env2 : Environment) (a1 a2 : Agent) :
  same_but_delays env1 env2 -> same_but_delay a1 a2 ->
  update env1 a1 = update env2 a2.
Proof.
  intros Henv Ha. pose proof Ha as (_ & _ & _ & Hid & _).
  destruct (id a1) as [i|] eqn:Hi.
  - rewrite (update_next_value env1 a1 i Hi).
    rewrite (update_next_value env2 a2 i) by congruence.
    rewrite (same_but_delays_snapshot env1 env2 Henv).
    destruct Henv as [-> _]. by rewrite (next_value_delay _ _ a1 a2 Ha).
  - unfold update, get_id. by rewrite <- Hid, Hi.
Qed.

Lemma map_result_Forall2 {A B} (R : A -> A -> Prop) (f g : A -> result B)
    (l1 l2 : list A) :
  Forall2 R l1 l2 -> (forall x y, R x y -> f x = g y) ->
  map_result f l1 = map_result g l2.
Proof.
  intros H Hfg. induction H as [|x y l1 l2 Hxy _ IH]; [done|].
  simpl. by rewrite (Hfg x y Hxy), IH.
Qed.

Lemma commit_delay (res : list (Z * pyval)) (env1 env2 : Environment) :
  same_but_delays env1 env2 ->
  completed (commit res env1) = completed (commit res env2) /\
  same_but_delays (final (commit res env1)) (final (commit res env2)).
Proof.
  revert env1 env2. induction res as [|[i data] res IH]; intros env1 env2 H;
    simpl; [done|].
  unfold lookup_pos. rewrite <- (same_but_delays_length env1 env2 H).
  destruct (py_index (length (population env1)) i) as [pos|e]; [|done].
  destruct H as [Hsp Hpop].
  destruct (population env1 !! pos) as [a1|] eqn:Ha1.
  - destruct (Forall2_lookup_l _ _ _ _ _ Hpop Ha1) as (a2 & -> & _).
    apply IH. split; [done|]. simpl. apply Forall2_alter; [done|].
    intros x y _ _ (Hn & Hc & Hnd & Hid & Hp1 & Hp2).
    destruct data; simpl; repeat split; done.
  - assert (population env2 !! pos = None) as ->; [|done].
    apply lookup_ge_None. apply lookup_ge_None in Ha1.
    by rewrite <- (Forall2_length _ _ _ Hpop).
Qed.

Lemma run_round_delay (processes : Z) (arr1 arr2 : list nat)
    (env1 env2 : Environment) :
  same_but_delays env1 env2 ->
  completed (run_round processes arr1 env1)
  = completed (run_round processes arr2 env2) /\
  same_but_delays (final (run_round processes arr1 env1))
                  (final (run_round processes arr2 env2)).
Proof.
  intros H. unfold run_round, initializer.
  destruct (processes <? 1); [done|].
  assert (Hm : map_result (update env1) (population env1)
               = map_result (update env2) (population env2)).
  { apply (map_result_Forall2 same_but_delay); [by destruct H|].
    intros x y. by apply update_delay. }
  destruct (map_result (update env2) (population env2)) as [res|e] eqn:Hm2.
  - rewrite (pool_map_Ok _ _ _ _ _ Hm), (pool_map_Ok _ _ _ _ _ Hm2).
    by apply commit_delay.
  - destruct (pool_map_Raise (Z.to_nat processes) arr1 _ _ _ Hm)
      as (e1 & _ & -> & _).
    destruct (pool_map_Raise (Z.to_nat processes) arr2 _ _ _ Hm2)
      as (e2 & _ & -> & _).
    done.
Qed.

Lemma iteration_delay (params1 params2 : Params) (w1 w2 : oracle) (j : nat)
    (s1 s2 : Environment * list report) :
  p_processes params1 = p_processes params2 ->
  same_but_delays s1.1 s2.1 /\ report_values <$> s1.2 = report_values <$> s2.2 ->
  completed (iteration params1 w1 j s1) = completed (iteration params2 w2 j s2)
  /\ (same_but_delays (final (iteration params1 w1 j s1)).1
                      (final (iteration params2 w2 j s2)).1
      /\ report_values <$> (final (iteration params1 w1 j s1)).2
         = report_values <$> (final (iteration params2 w2 j s2)).2).
Proof.
  intros Hp [Henv Hout]. destruct s1 as [e1 out1], s2 as [e2 out2].
  simpl in Henv, Hout. unfold iteration. rewrite <- Hp.
  destruct (run_round_delay (p_processes params1) (arrival w1 j)
              (arrival w2 j) e1 e2 Henv) as [Hc Hf].
  destruct (run_round _ (arrival w1 j) e1) as [e1'|x1 e1'],
           (run_round _ (arrival w2 j) e2) as [e2'|x2 e2'];
    simpl in Hc, Hf; try done.
  assert (Hrep : report_agents e1' = report_agents e2').
  { unfold report_agents.
    apply (map_result_Forall2 same_but_delay); [by destruct Hf|].
    intros x y (_ & Hcd & _ & Hid & _). unfold get_id. by rewrite Hid, Hcd. }
  rewrite Hrep. destruct (report_agents e2') as [line|x]; [|done].
  split; [done|]. split; [done|]. simpl. by rewrite !fmap_app, Hout.
Qed.

Lemma setup_delay (self1 self2 : Agent) (params : Params) (pt2 : pyval)
    (env1 env2 : Environment) (rng : list nat) :
  delay_ok (p_process_time params) -> delay_ok pt2 ->
  same_but_delay self1 self2 ->
  length (population env1) = length (population env2) ->
  completed (setup self1 params env1 rng)
  = completed (setup self2 (set_delay pt2 params) env2 rng) /\
  same_but_delay (final (setup self1 params env1 rng)).1
                 (final (setup self2 (set_delay pt2 params) env2 rng)).1 /\
  (final (setup self1 params env1 rng)).2
  = (final (setup self2 (set_delay pt2 params) env2 rng)).2.
Proof.
  intros Hp1 Hp2 Hs Hlen. pose proof Hs as (Hn & Hc & Hnd & Hid & Hq1 & Hq2).
  unfold setup, randint. cbn [p_max p_neighbors p_process_time set_delay].
  destruct (p_max params <? - p_max params); [done|].
  destruct (randbelow _ rng) as [j rng1].
  unfold get_id. cbn [id set_process_time set_cur_data]. rewrite <- Hid, <- Hlen.
  assert (Hfin : forall v ns1 ns2, ns1 = ns2 ->
            same_but_delay
              (set_neighbors ns1
                 (set_process_time (p_process_time params)
                    (set_cur_data (PyInt v) self1)))
              (set_neighbors ns2
                 (set_process_time pt2 (set_cur_data (PyInt v) self2)))).
  { intros v ns1 ns2 ->. repeat split; simpl; done. }
  assert (Hmid : forall v,
            same_but_delay
              (set_process_time (p_process_time params)
                 (set_cur_data (PyInt v) self1))
              (set_process_time pt2 (set_cur_data (PyInt v) self2))).
  { intros v. repeat split; simpl; done. }
  destruct (id self1) as [i|]; simpl;
    [|split; [done|split; [apply Hmid|done]]].
  destruct (py_list_remove i _) as [l'|];
    [|split; [done|split; [apply Hmid|done]]].
  destruct (sample l' (p_neighbors params) rng1) as [[ns rng2]|];
    [|split; [done|split; [apply Hmid|done]]].
  split; [done|]. split; [|done]. by apply Hfin.
Qed.

Lemma setup_one_delay (params : Params) (pt2 : pyval) (j : nat)
    (s1 s2 : Environment * list nat) :
  delay_ok (p_process_time params) -> delay_ok pt2 ->
  same_but_delays s1.1 s2.1 /\ s1.2 = s2.2 ->
  completed (setup_one params j s1)
  = completed (setup_one (set_delay pt2 params) j s2)
  /\ (same_but_delays (final (setup_one params j s1)).1
                      (final (setup_one (set_delay pt2 params) j s2)).1
      /\ (final (setup_one params j s1)).2
         = (final (setup_one (set_delay pt2 params) j s2)).2).
Proof.
  intros Hp1 Hp2 [Henv Hrng]. destruct s1 as [e1 r1], s2 as [e2 r2].
  simpl in Henv, Hrng. subst r2. unfold setup_one.
  pose proof (same_but_delays_length e1 e2 Henv) as Hlen.
  destruct Henv as [Hsp Hpop].
  destruct (population e1 !! j) as [a1|] eqn:Ha1.
  - destruct (Forall2_lookup_l _ _ _ _ _ Hpop Ha1) as (a2 & Ha2 & Ha).
    rewrite Ha2.
    destruct (setup_delay a1 a2 params pt2 e1 e2 r1 Hp1 Hp2 Ha Hlen)
      as (Hc & Hf & Hr).
    destruct (setup a1 params e1 r1) as [[b1 q1]|x1 [b1 q1]],
             (setup a2 (set_delay pt2 params) e2 r1) as [[b2 q2]|x2 [b2 q2]];
      simpl in Hc, Hf, Hr; try done; subst q2;
      (split; [done|]; split; [|done]; split; [done|]; simpl;
       apply Forall2_alter; [done|]; by intros).
  - assert (population e2 !! j = None) as ->.
    { apply lookup_ge_None. apply lookup_ge_None in Ha1. lia. }
    done.
Qed.

(** X18. A process time that is accepted only delays. Two runs of [doit]
    from the same generator state whose parameters differ only in the process
    time, in both a number that is not positive or a duration [time.sleep]
    accepts, end the same way and print reports with the same iteration
    numbers and the same agent values, whatever the clocks and the orders of
    completion; the environments they leave differ at most in the agents'
    process time. *)
Theorem delay_does_not_matter (params : Params) (pt2 : pyval)
    (rng : list nat) (w1 w2 : oracle) :
  delay_ok (p_process_time params) ->
  delay_ok pt2 ->
  let o1 := doit params rng w1 in
  let o2 := doit (set_delay pt2 params) rng w2 in
  completed o1 = completed o2 /\
  same_but_delays (final o1).1 (final o2).1 /\
  report_values <$> (final o1).2 = report_values <$> (final o2).2.
Proof.
  intros Hp1 Hp2 o1 o2. subst o1 o2. unfold doit.
  cbn [p_agents set_delay].
  set (env := populate (p_agents params)).
  assert (Henv : same_but_delays env env).
  { split; [done|]. unfold env. rewrite populate_eq. simpl.
    apply Forall2_fmap, Forall_Forall2_diag, Forall_forall.
    intros i _. by repeat split. }
  destruct (for_range_same
              (fun s1 s2 : Environment * list nat =>
                 same_but_delays s1.1 s2.1 /\ s1.2 = s2.2)
              (setup_one params) (setup_one (set_delay pt2 params))
              (length (population env))
              (fun j s1 s2 => setup_one_delay params pt2 j s1 s2 Hp1 Hp2)
              0%nat (env, rng) (env, rng) (conj Henv eq_refl))
    as (Hc & Hf & Hr).
  unfold setup_all.
  destruct (for_range (setup_one params) 0 _ (env, rng))
    as [[e1 r1]|x1 [e1 r1]],
    (for_range (setup_one (set_delay pt2 params)) 0 _ (env, rng))
    as [[e2 r2]|x2 [e2 r2]]; simpl in Hc, Hf, Hr; try done.
  unfold run_iterations. cbn [p_iterations set_delay].
  apply (for_range_same
           (fun s1 s2 : Environment * list report =>
              same_but_delays s1.1 s2.1
              /\ report_values <$> s1.2 = report_values <$> s2.2)
           (iteration params w1) (iteration (set_delay pt2 params) w2)).
  - intros j s1 s2. by apply iteration_delay.
  - done.
Qed.

Lemma delay_does_not_matter_witness :
  report_values <$>
    (final (doit (mkParams 1 5 2 3 2 (PyFloat 0.25)) [7; 1; 8; 2; 8; 1]%nat
              (mkOracle (fun _ => 0%float) (fun _ => 1%float)
                        (fun _ => [])))).2
  = report_values <$>
      (final (doit (set_delay (PyInt 0) (mkParams 1 5 2 3 2 (PyFloat 0.25)))
                [7; 1; 8; 2; 8; 1]%nat
                (mkOracle (fun _ => 5%float) (fun _ => 5.5%float)
                          (fun _ => [1; 0]%nat)))).2.
Proof.
  apply (delay_does_not_matter (mkParams 1 5 2 3 2 (PyFloat 0.25)) (PyInt 0)
           [7; 1; 8; 2; 8; 1]%nat
           (mkOracle (fun _ => 0%float) (fun _ => 1%float) (fun _ => []))
           (mkOracle (fun _ => 5%float) (fun _ => 5.5%float)
                     (fun _ => [1; 0]%nat))); reflexivity.
Defined.

(** ** The commit loop and the reads of an update *)

Lemma commit_step (env : Environment) (i : Z) (data : pyval)
    (res : list (Z * pyval)) :
  0 <= i < Z.of_nat (length (population env)) ->
  commit ((i, data) :: res) env
  = commit res
      (alter_agent (fun a => do_update a (Some data)) (Z.to_nat i) env).
Proof.
  intros Hi. cbn [commit]. unfold lookup_pos.
  rewrite py_index_nonneg by done.
  destruct (lookup_lt_is_Some_2 (population env) (Z.to_nat i)) as [a ->];
    [lia|done].
Qed.

Lemma commit_in_range (res : list (Z * pyval)) :
  forall env : Environment,
    Forall (fun r => 0 <= r.1 < Z.of_nat (length (population env))) res ->
    exists env', commit res env = Done env'.
Proof.
  induction res as [|[i data] res IH]; intros env Hres; [by eexists|].
  apply Forall_cons_1 in Hres as [Hi Hres]. simpl in Hi.
  rewrite commit_step by done. apply IH. simpl. by rewrite length_alter.
Qed.

(** X19. The commit loop goes by id, not by position in the result list: when
    the ids of the results are distinct indexes of the population, committing
    the results in any other order completes too and leaves the same
    environment. *)
Theorem commit_order_irrelevant (res res' : list (Z * pyval))
    (env : Environment) :
  res ≡ₚ res' ->
  NoDup res.*1 ->
  Forall (fun r => 0 <= r.1 < Z.of_nat (length (population env))) res ->
  commit res env = commit res' env /\
  exists env', commit res env = Done env'.
Proof.
  intros Hperm Hnd Hres. split; [|by apply commit_in_range].
  remember (length (population env)) as n eqn:Hn.
  revert env Hn Hnd Hres.
  induction Hperm as [|[i d] l l' Hp IH|[i d] [j d'] l|l l' l'' Hp1 IH1 Hp2 IH2];
    intros env Hn Hnd Hres.
  - done.
  - apply Forall_cons_1 in Hres as [Hi Hres]. simpl in Hi.
    rewrite fmap_cons in Hnd. apply NoDup_cons in Hnd as [_ Hnd].
    rewrite !commit_step by (subst n; done).
    apply IH; [|done|done]. simpl. by rewrite length_alter.
  - apply Forall_cons_1 in Hres as [Hj Hres].
    apply Forall_cons_1 in Hres as [Hi Hres]. simpl in Hi, Hj.
    rewrite !fmap_cons in Hnd. apply NoDup_cons in Hnd as [Hne _].
    simpl in Hne. rewrite elem_of_cons in Hne.
    assert (Hl : forall f k,
              length (population (alter_agent f k env)) = n).
    { intros f k. simpl. by rewrite length_alter. }
    rewrite (commit_step env j) by (subst n; done).
    rewrite (commit_step env i) by (subst n; done).
    rewrite !commit_step by (rewrite Hl; done).
    f_equal. unfold alter_agent, set_population. simpl. f_equal.
    apply list_alter_alter_ne. intros Heq. apply Hne. left. lia.
  - rewrite (IH1 env Hn Hnd Hres). apply IH2; [done| |].
    + by rewrite <- Hp1.
    + by rewrite <- Hp1.
Qed.

Lemma commit_order_irrelevant_witness :
  commit [(0, PyFloat 30); (1, PyFloat 50); (2, PyFloat 40)] scenario_env
  = commit [(2, PyFloat 40); (0, PyFloat 30); (1, PyFloat 50)] scenario_env.
Proof.
  apply (commit_order_irrelevant
           [(0, PyFloat 30); (1, PyFloat 50); (2, PyFloat 40)]
           [(2, PyFloat 40); (0, PyFloat 30); (1, PyFloat 50)] scenario_env).
  - change [(2, PyFloat 40); (0, PyFloat 30); (1, PyFloat 50)]
      with ([(2, PyFloat 40)] ++ [(0, PyFloat 30); (1, PyFloat 50)]).
    change [(0, PyFloat 30); (1, PyFloat 50); (2, PyFloat 40)]
      with ([(0, PyFloat 30); (1, PyFloat 50)] ++ [(2, PyFloat 40)]).
    apply Permutation_app_comm.
  - simpl. repeat (apply NoDup_cons; split;
                   [rewrite ?elem_of_cons, elem_of_nil; lia|]).
    apply NoDup_nil. done.
  - repeat constructor; simpl; lia.
Defined.

Lemma sum_neighbors_local (env1 env2 : Environment) (ns : list Z) :
  (forall x, x ∈ ns ->
     cur_data <$> lookup env1 x = cur_data <$> lookup env2 x) ->
  forall acc, sum_neighbors env1 acc ns = sum_neighbors env2 acc ns.
Proof.
  induction ns as [|x ns IH]; intros H acc; [done|]. cbn [sum_neighbors].
  pose proof (H x ltac:(by apply elem_of_cons; left)) as Hx.
  destruct (lookup env1 x) as [a1|e1], (lookup env2 x) as [a2|e2];
    simpl in Hx; try done.
  - injection Hx as Hx. cbn [mbind result_bind]. rewrite Hx.
    destruct (py_add acc (cur_data a2)); cbn [mbind result_bind]; [|done].
    apply IH. intros y Hy. apply H. by apply elem_of_cons; right.
Qed.

(** X20. An update reads nothing but the shared constant, the agent's own
    value and process time, and the values of the agents its neighbor ids
    resolve to: on two environments with the same constant in which each of
    its neighbor ids resolves to the same value (or fails in the same way),
    [calculate_update] returns the same value or raises the same exception,
    whatever the other agents hold and however many they are. *)
Theorem calculate_update_local (self : Agent) (env1 env2 : Environment) :
  my_special_stuff env1 = my_special_stuff env2 ->
  (forall x, x ∈ neighbors self ->
     cur_data <$> lookup env1 x = cur_data <$> lookup env2 x) ->
  calculate_update self env1 = calculate_update self env2.
Proof.
  intros Hsp Hns. unfold calculate_update.
  by rewrite (sum_neighbors_local env1 env2 (neighbors self) Hns), Hsp.
Qed.

Lemma calculate_update_local_witness :
  calculate_update (mkAgent [1] (PyInt 10) PyNone (PyInt 0) (Some 0))
                   scenario_env
  = calculate_update (mkAgent [1] (PyInt 10) PyNone (PyInt 0) (Some 0))
      (alter_agent (fun a => do_update a (Some (PyFloat 40))) 2 scenario_env).
Proof.
  apply (calculate_update_local
           (mkAgent [1] (PyInt 10) PyNone (PyInt 0) (Some 0)) scenario_env
           (alter_agent (fun a => do_update a (Some (PyFloat 40))) 2
                        scenario_env)).
  - reflexivity.
  - intros x Hx. simpl in Hx. apply elem_of_cons in Hx as [->|Hx];
      [reflexivity|]. by apply elem_of_nil in Hx.
Defined.

(** ** The delay of [calculate_update] *)


